(** * util/fibers/fibers.h: the fiber handle, the this-fiber operations
      and the atomic-section guard, over a model of the fiber runtime.

    The header of [util::fb2::Fiber] is embedded function by function.
    What the header calls but does not define ([detail::FiberInterface],
    [detail::FiberActive], the scheduler, the out-of-line members of
    [Fiber]) is modelled from the specification of the runtime; every such
    definition says so in its comment. *)

From Stdlib Require Import ZArith NArith Lia String.
From stdpp Require Import base option list gmap strings.

(** ** Pointers

    A pointer is its 64-bit address; [nullptr] is address 0, which is also
    what [reinterpret_cast<uint64_t>] yields for it. *)

Definition nullptr : N := 0%N.

(** ** Enumerations *)

(** Modelled from the spec: [Launch] is declared in
    detail/fiber_interface.h; the spec names the two launch policies
    "dispatch" (immediate) and "post" (deferred). *)
Inductive Launch := dispatch | post.

(** Modelled from the spec: [FiberPriority] is declared in
    detail/fiber_interface.h; the spec gives the ordered set LOW, NORMAL,
    HIGH. *)
Inductive FiberPriority := LOW | NORMAL | HIGH.

(** Modelled from the spec: the run state of a fiber control block. *)
Inductive RunState := Created | Runnable | Running | Waiting | Terminated.

(** Modelled from the spec: the join state of a fiber control block. *)
Inductive JoinState := Joinable | Joined | Detached.

(** Modelled from the spec: what a fiber that is inside a blocking call is
    blocked on, a wake deadline (sleep) or the completion of another fiber
    (join). *)
Inductive WaitCond :=
  | NotWaiting
  | UntilDeadline (tp : Z)
  | UntilTerminated (target : N).

(** Where a stack region comes from. *)
Inductive StackSource :=
  | FromResource (mr : N)
  | PlatformDefault.

#[global] Instance Launch_eq_dec : EqDecision Launch.
Proof. solve_decision. Defined.
#[global] Instance FiberPriority_eq_dec : EqDecision FiberPriority.
Proof. solve_decision. Defined.
#[global] Instance RunState_eq_dec : EqDecision RunState.
Proof. solve_decision. Defined.
#[global] Instance JoinState_eq_dec : EqDecision JoinState.
Proof. solve_decision. Defined.
#[global] Instance WaitCond_eq_dec : EqDecision WaitCond.
Proof. solve_decision. Defined.
#[global] Instance StackSource_eq_dec : EqDecision StackSource.
Proof. solve_decision. Defined.

(** ** The data model *)

(** [std::function<std::string()>], the kind of callback a
    [PrintLocalsCallback] installs. *)
Definition PrintFn : Type := unit -> string.

Record StackRegion := mkStackRegion {
  region_size : N;
  region_source : StackSource
}.

(** Modelled from the spec: the fiber control block
    ([detail::FiberInterface], declared outside this header).  The
    accounting counters of the spec (running time, preempt count) are left
    out, no operation below reads them. *)
Record FiberInterface := mkFiberInterface {
  scheduler : N;
  name_ : string;
  prio_ : FiberPriority;
  stack_region : StackRegion;
  run_state : RunState;
  join_state : JoinState;
  wait_ : WaitCond;
  stacktrace_print_cb_ : option PrintFn
}.

(** Modelled from the spec: the scheduler of one carrier thread, as far as
    the header reads it: its own address, the active fiber of the thread
    ([nullptr] when idle) and the atomic-section depth.  The run queue and
    the wait set are the fibers of this scheduler whose [run_state] is
    [Runnable], respectively [Waiting]. *)
Record Scheduler := mkScheduler {
  sched_id : N;
  active : N;
  atomic_section : Z
}.

(** The state of the process: the fiber control blocks by address, the
    thread-local scheduler of every carrier thread, the steady clock (in
    ticks of [steady_clock::duration]), and the process-wide stack
    resource ([detail::default_stack_resource]). *)
Record World := mkWorld {
  heap : gmap N FiberInterface;
  threads : gmap nat Scheduler;
  now : Z;
  default_stack_resource : N;
  default_stack_size : N
}.

(** [Fiber::Opts], with the defaults of the header. *)
Record Opts := mkOpts {
  launch : Launch;
  priority : FiberPriority;
  name : string;
  stack_size : N
}.

Definition default_Opts : Opts :=
  {| launch := post; priority := NORMAL; name := EmptyString;
     stack_size := 64 * 1024 |}.

(** The fiber handle: its only member is
    [boost::intrusive_ptr<FiberInterface> impl_]. *)
Record Fiber := mkFiber { impl_ : N }.

(** ** Record updates *)

Definition set_run_state (r : RunState) (f : FiberInterface) :=
  {| scheduler := scheduler f; name_ := name_ f; prio_ := prio_ f;
     stack_region := stack_region f; run_state := r;
     join_state := join_state f; wait_ := wait_ f;
     stacktrace_print_cb_ := stacktrace_print_cb_ f |}.

Definition set_join_state (j : JoinState) (f : FiberInterface) :=
  {| scheduler := scheduler f; name_ := name_ f; prio_ := prio_ f;
     stack_region := stack_region f; run_state := run_state f;
     join_state := j; wait_ := wait_ f;
     stacktrace_print_cb_ := stacktrace_print_cb_ f |}.

Definition set_wait (c : WaitCond) (f : FiberInterface) :=
  {| scheduler := scheduler f; name_ := name_ f; prio_ := prio_ f;
     stack_region := stack_region f; run_state := run_state f;
     join_state := join_state f; wait_ := c;
     stacktrace_print_cb_ := stacktrace_print_cb_ f |}.

Definition set_cb (cb : option PrintFn) (f : FiberInterface) :=
  {| scheduler := scheduler f; name_ := name_ f; prio_ := prio_ f;
     stack_region := stack_region f; run_state := run_state f;
     join_state := join_state f; wait_ := wait_ f;
     stacktrace_print_cb_ := cb |}.

Definition set_active (a : N) (s : Scheduler) :=
  {| sched_id := sched_id s; active := a;
     atomic_section := atomic_section s |}.

Definition set_atomic_section (d : Z) (s : Scheduler) :=
  {| sched_id := sched_id s; active := active s; atomic_section := d |}.

Definition with_heap (h : gmap N FiberInterface) (w : World) :=
  {| heap := h; threads := threads w; now := now w;
     default_stack_resource := default_stack_resource w;
     default_stack_size := default_stack_size w |}.

Definition with_threads (ts : gmap nat Scheduler) (w : World) :=
  {| heap := heap w; threads := ts; now := now w;
     default_stack_resource := default_stack_resource w;
     default_stack_size := default_stack_size w |}.

Definition with_now (n : Z) (w : World) :=
  {| heap := heap w; threads := threads w; now := n;
     default_stack_resource := default_stack_resource w;
     default_stack_size := default_stack_size w |}.

Definition with_stack_resource (mr sz : N) (w : World) :=
  {| heap := heap w; threads := threads w; now := now w;
     default_stack_resource := mr; default_stack_size := sz |}.

(** Store [f] at address [p]. *)
Definition store (p : N) (f : FiberInterface) (w : World) : World :=
  with_heap (<[p := f]> (heap w)) w.

(** The thread-local active pointer of thread [t] becomes [a]. *)
Definition activate (t : nat) (a : N) (w : World) : World :=
  match threads w !! t with
  | Some s => with_threads (<[t := set_active a s]> (threads w)) w
  | None => w
  end.

(** ** The handle: members defined in the header *)

(** [Fiber() = default]: the empty handle. *)
Definition Fiber_default : Fiber := {| impl_ := nullptr |}.

(** [void swap(Fiber& other)]: returns the new [*this] and the new
    [other]. *)
Definition swap (this other : Fiber) : Fiber * Fiber :=
  ({| impl_ := impl_ other |}, {| impl_ := impl_ this |}).

(** [Fiber(Fiber&& other) noexcept : impl_{} { swap(other); }]: returns the
    constructed handle and what is left of [other]. *)
Definition Fiber_move (other : Fiber) : Fiber * Fiber :=
  swap {| impl_ := nullptr |} other.

(** [ID get_id() const]: [reinterpret_cast<ID>(impl_.get())]. *)
Definition get_id (this : Fiber) : N := impl_ this.

(** [bool IsJoinable() const]: [nullptr != impl_]. *)
Definition IsJoinable (this : Fiber) : bool :=
  negb (nullptr =? impl_ this)%N.

(** Modelled from the spec: [detail::FiberActive()], declared outside this
    header: the fiber currently active on the calling carrier thread [t],
    [nullptr] when there is none. *)
Definition FiberActive (w : World) (t : nat) : N :=
  match threads w !! t with
  | Some s => active s
  | None => nullptr
  end.

(** [bool IsLocal() const]:
    [impl_->scheduler() == detail::FiberActive()->scheduler()].
    [None] when one of the two dereferences hits no fiber control block. *)
Definition IsLocal (w : World) (t : nat) (this : Fiber) : option bool :=
  match heap w !! impl_ this with
  | None => None
  | Some f =>
      match heap w !! FiberActive w t with
      | None => None
      | Some a => Some (scheduler f =? scheduler a)%N
      end
  end.

(** [bool IsActive() const]: [impl_.get() == detail::FiberActive()]. *)
Definition IsActive (w : World) (t : nat) (this : Fiber) : bool :=
  (impl_ this =? FiberActive w t)%N.

(** ** The fiber control block: members the header calls *)

(** Modelled from the spec: [FiberInterface::WaitUntil(tp)], defined
    outside this header.  The fiber [p] goes from Running to Waiting with
    wake deadline [tp]; its carrier thread [t] has no active fiber until
    its scheduler switches to one. *)
Definition WaitUntil (tp : Z) (p : N) (t : nat) (w : World) : option World :=
  match heap w !! p with
  | None => None
  | Some f =>
      Some (activate t nullptr
              (store p (set_wait (UntilDeadline tp) (set_run_state Waiting f)) w))
  end.

(** Modelled from the spec: [FiberInterface::Yield()], defined outside
    this header.  Running to Runnable; the scheduler then runs the next
    eligible fiber. *)
Definition FiberInterface_Yield (p : N) (t : nat) (w : World) : option World :=
  match heap w !! p with
  | None => None
  | Some f => Some (activate t nullptr (store p (set_run_state Runnable f) w))
  end.

(** Modelled from the spec: [FiberInterface::SetPrintStacktraceCb(fn)],
    defined outside this header; it stores the callback in the control
    block, and a null argument leaves the block without a callback. *)
Definition SetPrintStacktraceCb (cb : option PrintFn) (p : N) (w : World)
  : option World :=
  match heap w !! p with
  | None => None
  | Some f => Some (store p (set_cb cb f) w)
  end.

(** Modelled from the spec: [detail::EnterFiberAtomicSection()], defined
    outside this header: increments the atomic-section depth counter of
    the carrier thread. *)
Definition EnterFiberAtomicSection (t : nat) (w : World) : World :=
  match threads w !! t with
  | Some s =>
      with_threads
        (<[t := set_atomic_section (atomic_section s + 1) s]> (threads w)) w
  | None => w
  end.

(** Modelled from the spec: [detail::LeaveFiberAtomicSection()], defined
    outside this header: decrements the depth counter. *)
Definition LeaveFiberAtomicSection (t : nat) (w : World) : World :=
  match threads w !! t with
  | Some s =>
      with_threads
        (<[t := set_atomic_section (atomic_section s - 1) s]> (threads w)) w
  | None => w
  end.

(** The depth counter of thread [t]; a thread that has no scheduler yet
    has depth 0. *)
Definition atomic_depth (w : World) (t : nat) : Z :=
  match threads w !! t with
  | Some s => atomic_section s
  | None => 0%Z
  end.

(** Modelled from the spec: the scheduler may involuntarily suspend the
    active fiber only while the depth counter is zero. *)
Definition preemptible (w : World) (t : nat) : bool :=
  (atomic_depth w t =? 0)%Z.

(** ** Time points

    A [steady_clock::time_point] counts the ticks of the clock in a signed
    64-bit integer (the header asserts [sizeof(tp) == 8]).  The sum of a
    time point and a duration is taken in that integer: a sum outside its
    range wraps around. *)

Definition wrap_int64 (z : Z) : Z := ((z + 2 ^ 63) mod 2 ^ 64 - 2 ^ 63)%Z.

Definition time_point_add (tp d : Z) : Z := wrap_int64 (tp + d).

(** The sum of [tp] and [d] is a value of the 64-bit time point. *)
Definition in_time_point_range (z : Z) : Prop := (- 2 ^ 63 ≤ z < 2 ^ 63)%Z.

(** ** namespace ThisFiber and FiberAtomicGuard, as in the header *)

Module ThisFiber.

(** [SleepUntil(tp)]: [FiberActive()->WaitUntil(tp)]. *)
Definition SleepUntil (tp : Z) (t : nat) (w : World) : option World :=
  WaitUntil tp (FiberActive w t) t w.

(** [SleepFor(timeout_duration)]:
    [SleepUntil(steady_clock::now() + timeout_duration)], the sum taken
    in the 64-bit time point. *)
Definition SleepFor (timeout_duration : Z) (t : nat) (w : World)
  : option World :=
  SleepUntil (time_point_add (now w) timeout_duration) t w.

(** [Yield()]: [FiberActive()->Yield()]. *)
Definition Yield (t : nat) (w : World) : option World :=
  FiberInterface_Yield (FiberActive w t) t w.

(** The constructor of [PrintLocalsCallback]:
    [FiberActive()->SetPrintStacktraceCb(std::forward<Fn>(fn))]. *)
Definition PrintLocalsCallback_ctor (fn : PrintFn) (t : nat) (w : World)
  : option World :=
  SetPrintStacktraceCb (Some fn) (FiberActive w t) w.

(** The destructor of [PrintLocalsCallback]:
    [FiberActive()->SetPrintStacktraceCb(nullptr)]. *)
Definition PrintLocalsCallback_dtor (t : nat) (w : World) : option World :=
  SetPrintStacktraceCb None (FiberActive w t) w.

End ThisFiber.

(** How control leaves a block scope. *)
Inductive ScopeExit := FallThrough | EarlyReturn | Thrown.

(** A block whose first declaration is a [PrintLocalsCallback] guard: the
    constructor runs, then the rest of the block, then, however the block
    is left, the destructor. *)
Definition PrintLocalsCallback_scope (fn : PrintFn)
    (body : World -> option (ScopeExit * World)) (t : nat) (w : World)
  : option (ScopeExit * World) :=
  match ThisFiber.PrintLocalsCallback_ctor fn t w with
  | None => None
  | Some w1 =>
      match body w1 with
      | None => None
      | Some (e, w2) =>
          match ThisFiber.PrintLocalsCallback_dtor t w2 with
          | None => None
          | Some w3 => Some (e, w3)
          end
      end
  end.

(** [FiberAtomicGuard()] and [~FiberAtomicGuard()]. *)
Definition FiberAtomicGuard_ctor (t : nat) (w : World) : World :=
  EnterFiberAtomicSection t w.

Definition FiberAtomicGuard_dtor (t : nat) (w : World) : World :=
  LeaveFiberAtomicSection t w.

(** Guard objects of one thread, told apart by a number. *)
Inductive GuardOp := Construct (g : nat) | Destroy (g : nat).

Definition guard_step (t : nat) (w : World) (o : GuardOp) : World :=
  match o with
  | Construct _ => FiberAtomicGuard_ctor t w
  | Destroy _ => FiberAtomicGuard_dtor t w
  end.

Definition guard_run (t : nat) (ops : list GuardOp) (w : World) : World :=
  foldl (guard_step t) w ops.

(** [n] nested guards: guards 1 to [n] are constructed, then destroyed in
    reverse order. *)
Definition construct_nested (n : nat) : list GuardOp :=
  Construct <$> seq 1 n.

Definition destroy_nested (n : nat) : list GuardOp :=
  Destroy <$> reverse (seq 1 n).

(** ** Creating a fiber *)

(** The two stack allocators the options-based constructor chooses from:
    [FixedStackAllocator(mr, size)] and
    [boost::context::fixedsize_stack(size)]. *)
Inductive StackAlloc :=
  | FixedStackAllocator (mr : N) (size : N)
  | fixedsize_stack (size : N).

(** Modelled from the spec: [allocate()] of the two allocators, defined
    outside this header: a contiguous region of the size the allocator was
    built with, from its memory resource, or from the platform default
    allocator. *)
Definition allocate (a : StackAlloc) : StackRegion :=
  match a with
  | FixedStackAllocator mr size =>
      {| region_size := size; region_source := FromResource mr |}
  | fixedsize_stack size =>
      {| region_size := size; region_source := PlatformDefault |}
  end.

(** Modelled from the spec: [detail::MakeWorkerFiberImpl(name, priority,
    stack_alloc, fn, arg...)], defined outside this header: allocates the
    stack and builds a control block in Created state, bound to the
    scheduler of the calling carrier thread.  [p] is the address the block
    is built at; an address that is null or taken stands for the failure
    of the allocation, which is fatal. *)
Definition MakeWorkerFiberImpl (nm : string) (pr : FiberPriority)
    (a : StackAlloc) (t : nat) (p : N) (w : World) : option World :=
  match threads w !! t with
  | None => None
  | Some s =>
      if (p =? nullptr)%N then None
      else match heap w !! p with
           | Some _ => None
           | None =>
               Some (store p
                       {| scheduler := sched_id s; name_ := nm; prio_ := pr;
                          stack_region := allocate a; run_state := Created;
                          join_state := Joinable; wait_ := NotWaiting;
                          stacktrace_print_cb_ := None |} w)
           end
  end.

(** Modelled from the spec: [FiberInterface::Start(launch)], defined
    outside this header.  post: the new fiber becomes Runnable and the
    caller goes on.  dispatch: the caller is suspended (it stays ready to
    run) and control passes to the new fiber. *)
Definition Start (l : Launch) (p : N) (t : nat) (w : World) : option World :=
  match heap w !! p with
  | None => None
  | Some f =>
      match l with
      | post => Some (store p (set_run_state Runnable f) w)
      | dispatch =>
          let c := FiberActive w t in
          let w1 := match heap w !! c with
                    | Some fc => store c (set_run_state Runnable fc) w
                    | None => w
                    end in
          Some (activate t p (store p (set_run_state Running f) w1))
      end
  end.

(** The allocator argument of the options-based constructor:
    [detail::default_stack_resource
       ? FixedStackAllocator(detail::default_stack_resource, opts.stack_size)
       : boost::context::fixedsize_stack(opts.stack_size)]. *)
Definition opts_stack_alloc (opts : Opts) (w : World) : StackAlloc :=
  if negb (default_stack_resource w =? nullptr)%N
  then FixedStackAllocator (default_stack_resource w) (stack_size opts)
  else fixedsize_stack (stack_size opts).

(** [Fiber(const Opts& opts, Fn&& fn, Arg&&... arg)]: [impl_] is
    initialised from [MakeWorkerFiberImpl] with [opts.name],
    [opts.priority] and the allocator above, then [Start(opts.launch)]. *)
Definition Fiber_opts (opts : Opts) (t : nat) (p : N) (w : World)
  : option (World * Fiber) :=
  match MakeWorkerFiberImpl (name opts) (priority opts)
          (opts_stack_alloc opts w) t p w with
  | None => None
  | Some w1 =>
      match Start (launch opts) p t w1 with
      | None => None
      | Some w2 => Some (w2, {| impl_ := p |})
      end
  end.

(** Modelled from the spec: [SetDefaultStackResource(mr, default_size)],
    only declared in this header: installs the process-wide resource and
    default size; a second installation fails fast. *)
Definition SetDefaultStackResource (mr default_size : N) (w : World)
  : option World :=
  if (default_stack_resource w =? nullptr)%N
  then Some (with_stack_resource mr default_size w)
  else None.

(** ** Members of the handle that are only declared in the header *)

(** Modelled from the spec: [Fiber& operator=(Fiber&& other)], only
    declared in this header.  The reference passes to [*this] and the
    moved-from handle is empty; the spec does not say what becomes of a
    reference [*this] held before, and the model says nothing about it. *)
Definition Fiber_move_assign (this other : Fiber) : Fiber * Fiber :=
  ({| impl_ := impl_ other |}, Fiber_default).

(** The outcome of a call of [Join] up to its first suspension. *)
Inductive JoinResult :=
  | JoinReturned (w : World) (h : Fiber)
  | JoinSuspended (w : World).

(** Modelled from the spec: the end of [Join]: [join_state] becomes
    Joined (the handle then drops its reference). *)
Definition Join_finish (g : N) (w : World) : option World :=
  match heap w !! g with
  | None => None
  | Some fg => Some (store g (set_join_state Joined fg) w)
  end.

(** Modelled from the spec: [void Fiber::Join()], only declared in this
    header, called by the active fiber of thread [t].  An empty handle or
    a control block that is not Joinable is a caller error ([None]).  If
    the target has terminated the call returns at once; otherwise the
    caller is suspended on the completion of the target. *)
Definition Join (this : Fiber) (t : nat) (w : World) : option JoinResult :=
  let c := FiberActive w t in
  if negb (IsJoinable this) then None
  else
    match heap w !! impl_ this, heap w !! c with
    | Some fg, Some fc =>
        if negb (bool_decide (join_state fg = Joinable)) then None
        else if bool_decide (run_state fg = Terminated) then
          match Join_finish (impl_ this) w with
          | Some w' => Some (JoinReturned w' Fiber_default)
          | None => None
          end
        else
          Some (JoinSuspended
                  (activate t nullptr
                     (store c (set_wait (UntilTerminated (impl_ this))
                                 (set_run_state Waiting fc)) w)))
    | _, _ => None
    end.

(** Modelled from the spec: the rest of a suspended [Join], run by the
    caller once it is the active fiber of [t] again: the wait is over,
    [join_state] becomes Joined and the handle releases its reference. *)
Definition Join_resume (this : Fiber) (t : nat) (w : World)
  : option (World * Fiber) :=
  let c := FiberActive w t in
  match heap w !! c with
  | None => None
  | Some fc =>
      if bool_decide (wait_ fc = UntilTerminated (impl_ this)) then
        match Join_finish (impl_ this) (store c (set_wait NotWaiting fc) w) with
        | Some w' => Some (w', Fiber_default)
        | None => None
        end
      else None
  end.

(** Modelled from the spec: [void Fiber::Detach()], only declared in this
    header: [join_state] becomes Detached and the handle releases its
    reference. *)
Definition Detach (this : Fiber) (w : World) : option (World * Fiber) :=
  if negb (IsJoinable this) then None
  else
    match heap w !! impl_ this with
    | None => None
    | Some f =>
        Some (store (impl_ this) (set_join_state Detached f) w, Fiber_default)
    end.

(** ** The scheduler *)

(** The active fiber of thread [t] exists and is not inside a blocking
    call: it is free to make its next call. *)
Definition can_call (w : World) (t : nat) : bool :=
  match heap w !! FiberActive w t with
  | Some f => bool_decide (wait_ f = NotWaiting)
  | None => false
  end.

(** Modelled from the spec: the wake-up of the joiners of [g] when [g]
    terminates: a fiber that waits for the completion of [g] becomes
    Runnable. *)
Definition wake_joiner (g : N) (f : FiberInterface) : FiberInterface :=
  if bool_decide (run_state f = Waiting ∧ wait_ f = UntilTerminated g)
  then set_run_state Runnable f
  else f.

(** Modelled from the spec: the entry function of the active fiber of [t]
    returns: the fiber enters Terminated and all blocked joiners are woken
    at that transition. *)
Definition Terminate (t : nat) (w : World) : option World :=
  let a := FiberActive w t in
  match heap w !! a with
  | None => None
  | Some f =>
      Some (activate t nullptr
              (with_heap
                 (wake_joiner a <$> <[a := set_run_state Terminated f]> (heap w))
                 w))
  end.

(** Modelled from the spec: the scheduler of [t], idle, switches to the
    Runnable fiber [p] that it owns.  Which of its Runnable fibers it
    takes (priority, arrival order) is left open: every choice the
    scheduler of the spec can make is such a step. *)
Definition Switch (t : nat) (p : N) (w : World) : option World :=
  match threads w !! t, heap w !! p with
  | Some s, Some f =>
      if (active s =? nullptr)%N && bool_decide (run_state f = Runnable)
         && (scheduler f =? sched_id s)%N
      then Some (activate t p (store p (set_run_state Running f) w))
      else None
  | _, _ => None
  end.

(** Modelled from the spec: a sleeping fiber whose deadline has elapsed
    re-enters Runnable. *)
Definition TimerWake (p : N) (w : World) : option World :=
  match heap w !! p with
  | Some f =>
      match wait_ f with
      | UntilDeadline tp =>
          if bool_decide (run_state f = Waiting) && (tp <=? now w)%Z
          then Some (store p (set_wait NotWaiting (set_run_state Runnable f)) w)
          else None
      | _ => None
      end
  | None => None
  end.

(** Modelled from the spec: involuntary suspension of the active fiber,
    which may only happen while the atomic-section depth is zero. *)
Definition Preempt (t : nat) (w : World) : option World :=
  if preemptible w t then FiberInterface_Yield (FiberActive w t) t w
  else None.

(** The steady clock advances. *)
Definition Tick (d : Z) (w : World) : option World :=
  if (0 <=? d)%Z then Some (with_now (now w + d) w) else None.

(** What can happen in the process, one step at a time. *)
Inductive Event :=
  | EvTick (d : Z)
  | EvSwitch (t : nat) (p : N)
  | EvTimerWake (p : N)
  | EvPreempt (t : nat)
  | EvTerminate (t : nat)
  | EvYield (t : nat)
  | EvSleepUntil (t : nat) (tp : Z)
  | EvSleepFor (t : nat) (d : Z)
  | EvCreate (t : nat) (opts : Opts) (p : N)
  | EvJoin (t : nat) (h : Fiber)
  | EvJoinResume (t : nat) (h : Fiber)
  | EvDetach (t : nat) (h : Fiber)
  | EvSetPrintStacktraceCb (t : nat) (cb : option PrintFn)
  | EvEnterAtomic (t : nat)
  | EvLeaveAtomic (t : nat).

Definition JoinResult_world (r : JoinResult) : World :=
  match r with
  | JoinReturned w _ => w
  | JoinSuspended w => w
  end.

(** One step.  The calls of a fiber are taken only when it is free to
    call; [None] when the event cannot happen in [w]. *)
Definition step (e : Event) (w : World) : option World :=
  match e with
  | EvTick d => Tick d w
  | EvSwitch t p => Switch t p w
  | EvTimerWake p => TimerWake p w
  | EvPreempt t => Preempt t w
  | EvTerminate t => if can_call w t then Terminate t w else None
  | EvYield t => if can_call w t then ThisFiber.Yield t w else None
  | EvSleepUntil t tp =>
      if can_call w t then ThisFiber.SleepUntil tp t w else None
  | EvSleepFor t d =>
      if can_call w t then ThisFiber.SleepFor d t w else None
  | EvCreate t opts p =>
      if can_call w t then fst <$> Fiber_opts opts t p w else None
  | EvJoin t h =>
      if can_call w t then JoinResult_world <$> Join h t w else None
  | EvJoinResume t h => fst <$> Join_resume h t w
  | EvDetach t h => if can_call w t then fst <$> Detach h w else None
  | EvSetPrintStacktraceCb t cb =>
      if can_call w t then SetPrintStacktraceCb cb (FiberActive w t) w
      else None
  | EvEnterAtomic t =>
      if can_call w t then Some (EnterFiberAtomicSection t w) else None
  | EvLeaveAtomic t =>
      if can_call w t then Some (LeaveFiberAtomicSection t w) else None
  end.

Fixpoint run (es : list Event) (w : World) : option World :=
  match es with
  | [] => Some w
  | e :: es' =>
      match step e w with
      | None => None
      | Some w' => run es' w'
      end
  end.

(** ** Observations *)

Definition run_state_of (w : World) (p : N) : option RunState :=
  run_state <$> heap w !! p.

Definition join_state_of (w : World) (p : N) : option JoinState :=
  join_state <$> heap w !! p.

Definition wait_of (w : World) (p : N) : option WaitCond :=
  wait_ <$> heap w !! p.

Definition cb_of (w : World) (p : N) : option (option PrintFn) :=
  stacktrace_print_cb_ <$> heap w !! p.

Definition stack_of (w : World) (p : N) : option StackRegion :=
  stack_region <$> heap w !! p.

Definition is_waiting (w : World) (p : N) : bool :=
  bool_decide (run_state_of w p = Some Waiting).

(** How often [c] is woken (leaves Waiting) along the run of [es] from
    [w]. *)
Fixpoint wakes (c : N) (es : list Event) (w : World) : nat :=
  match es with
  | [] => 0
  | e :: es' =>
      match step e w with
      | None => 0
      | Some w' =>
          (if is_waiting w c && negb (is_waiting w' c) then 1 else 0)
          + wakes c es' w'
      end
  end.

(** The control block [p] is the one that is Running on the scheduler
    that owns it. *)
Definition RunningOnOwner (w : World) (p : N) : Prop :=
  ∃ f t s, heap w !! p = Some f ∧ run_state f = Running ∧
           threads w !! t = Some s ∧ sched_id s = scheduler f ∧ active s = p.

(** The handle holds a live reference: a pointer to an allocated control
    block. *)
Definition holds_live (w : World) (h : Fiber) : Prop :=
  impl_ h ≠ nullptr ∧ is_Some (heap w !! impl_ h).

(** ** Well-formed worlds *)

Record wf_world (w : World) : Prop := mk_wf {
  wf_null : heap w !! nullptr = None;
  wf_active : ∀ t s, threads w !! t = Some s → active s ≠ nullptr →
      ∃ f, heap w !! active s = Some f ∧ run_state f = Running ∧
           scheduler f = sched_id s;
  wf_sched : ∀ t1 t2 s1 s2, threads w !! t1 = Some s1 →
      threads w !! t2 = Some s2 → sched_id s1 = sched_id s2 → t1 = t2
}.

(** The reference of a handle keeps its control block allocated. *)
Definition handle_ok (w : World) (h : Fiber) : Prop :=
  impl_ h = nullptr ∨ is_Some (heap w !! impl_ h).

(** ** The state machine of one control block

    What one step [e], taken in [w], can do to the run state and the wait
    condition of the control block at [q]: nothing, or one of the
    transitions of the spec's state machine. *)
Inductive fcb_trans (w : World) (q : N)
  : Event → RunState * WaitCond → RunState * WaitCond → Prop :=
  | tr_same e rc : fcb_trans w q e rc rc
  | tr_switch t c :
      fcb_trans w q (EvSwitch t q) (Runnable, c) (Running, c)
  | tr_timer tp :
      (tp ≤ now w)%Z →
      fcb_trans w q (EvTimerWake q)
        (Waiting, UntilDeadline tp) (Runnable, NotWaiting)
  | tr_preempt t c :
      FiberActive w t = q →
      fcb_trans w q (EvPreempt t) (Running, c) (Runnable, c)
  | tr_terminate t :
      FiberActive w t = q →
      fcb_trans w q (EvTerminate t)
        (Running, NotWaiting) (Terminated, NotWaiting)
  | tr_joiner_woken t :
      fcb_trans w q (EvTerminate t)
        (Waiting, UntilTerminated (FiberActive w t))
        (Runnable, UntilTerminated (FiberActive w t))
  | tr_yield t :
      FiberActive w t = q →
      fcb_trans w q (EvYield t) (Running, NotWaiting) (Runnable, NotWaiting)
  | tr_sleep_until t tp :
      FiberActive w t = q →
      fcb_trans w q (EvSleepUntil t tp)
        (Running, NotWaiting) (Waiting, UntilDeadline tp)
  | tr_sleep_for t d :
      FiberActive w t = q →
      fcb_trans w q (EvSleepFor t d)
        (Running, NotWaiting)
        (Waiting, UntilDeadline (time_point_add (now w) d))
  | tr_dispatch t opts p :
      FiberActive w t = q → launch opts = dispatch →
      fcb_trans w q (EvCreate t opts p)
        (Running, NotWaiting) (Runnable, NotWaiting)
  | tr_join_suspend t h :
      FiberActive w t = q →
      run_state_of w (impl_ h) ≠ Some Terminated →
      fcb_trans w q (EvJoin t h)
        (Running, NotWaiting) (Waiting, UntilTerminated (impl_ h))
  | tr_join_resume t h :
      FiberActive w t = q →
      fcb_trans w q (EvJoinResume t h)
        (Running, UntilTerminated (impl_ h)) (Running, NotWaiting).

(** ** The phases of a suspended Join

    [c] called [Join] on a handle of [g] and was suspended.  It is first
    blocked (Waiting, the target not yet Terminated), then woken (ready or
    running again, still inside [Join]), and at last [Join] is over. *)

Definition join_blocked (w : World) (c g : N) : Prop :=
  ∃ fc fg, heap w !! c = Some fc ∧ run_state fc = Waiting ∧
           wait_ fc = UntilTerminated g ∧
           heap w !! g = Some fg ∧ run_state fg ≠ Terminated.

Definition join_woken (w : World) (c g : N) : Prop :=
  ∃ fc fg, heap w !! c = Some fc ∧
           (run_state fc = Runnable ∨ run_state fc = Running) ∧
           wait_ fc = UntilTerminated g ∧
           heap w !! g = Some fg ∧ run_state fg = Terminated.

Definition join_over (w : World) (c g : N) : Prop :=
  ∃ fc fg, heap w !! c = Some fc ∧ wait_ fc ≠ UntilTerminated g ∧
           heap w !! g = Some fg ∧ run_state fg = Terminated.

(** [c] sleeps until [tp]. *)
Definition asleep (w : World) (c : N) (tp : Z) : Prop :=
  ∃ fc, heap w !! c = Some fc ∧ run_state fc = Waiting ∧
        wait_ fc = UntilDeadline tp.

(** ** A small process, used in the examples

    Two carrier threads.  Thread 0 (scheduler at 256) runs the fiber at
    4096 and also owns a Runnable fiber (12288) and a Terminated one
    (16384); thread 1 (scheduler at 512) runs the fiber at 8192. *)

Definition example_fcb (sch : N) (r : RunState) : FiberInterface :=
  {| scheduler := sch; name_ := EmptyString; prio_ := NORMAL;
     stack_region := {| region_size := 65536; region_source := PlatformDefault |};
     run_state := r; join_state := Joinable; wait_ := NotWaiting;
     stacktrace_print_cb_ := None |}.

Definition example_world : World :=
  {| heap := <[4096%N := example_fcb 256 Running]>
               (<[8192%N := example_fcb 512 Running]>
                  (<[12288%N := example_fcb 256 Runnable]>
                     (<[16384%N := example_fcb 256 Terminated]> ∅)));
     threads := <[0 := mkScheduler 256 4096 0]>
                  (<[1 := mkScheduler 512 8192 0]> ∅);
     now := 1000;
     default_stack_resource := nullptr;
     default_stack_size := 0 |}.

Definition example_callback : PrintFn := fun _ => "locals"%string.

(** ** The other constructors of the handle, and MakeFiber

    The entry function and its arguments are not part of the state of the
    model; a constructor is given the carrier thread [t] it runs on and
    the address [p] its control block is built at. *)

(** [Fiber(Launch policy, std::string_view name, Fn&& fn, Arg&&... arg)]:
    delegates to [Fiber(Opts{.launch = policy, .name = name}, ...)]; the
    members that are not designated keep the defaults of [Opts]. *)
Definition Fiber_policy_name (policy : Launch) (nm : string)
    (t : nat) (p : N) (w : World) : option (World * Fiber) :=
  Fiber_opts {| launch := policy; priority := NORMAL; name := nm;
                stack_size := 64 * 1024 |} t p w.

(** [Fiber(std::string_view name, Fn&& fn)] and
    [Fiber(std::string_view name, Fn&& fn, Arg&&... arg)]: both delegate to
    [Fiber(Launch::post, name, ...)]. *)
Definition Fiber_name (nm : string) (t : nat) (p : N) (w : World)
  : option (World * Fiber) :=
  Fiber_policy_name post nm t p w.

(** [Fiber(Launch policy, Fn&& fn)]: delegates to
    [Fiber(policy, std::string_view{}, fn)]. *)
Definition Fiber_policy (policy : Launch) (t : nat) (p : N) (w : World)
  : option (World * Fiber) :=
  Fiber_policy_name policy EmptyString t p w.

(** [Fiber(Fn&& fn)]: delegates to [Fiber(std::string_view{}, fn)]. *)
Definition Fiber_fn (t : nat) (p : N) (w : World) : option (World * Fiber) :=
  Fiber_name EmptyString t p w.

(** [Fiber(Launch policy, StackAlloc&& stack_alloc, std::string_view name,
    Fn&& fn, Arg&&... arg)]: [impl_] is initialised from
    [MakeWorkerFiberImpl(name, FiberPriority::NORMAL, stack_alloc, ...)],
    then [Start(policy)]. *)
Definition Fiber_stack_alloc (policy : Launch) (stack_alloc : StackAlloc)
    (nm : string) (t : nat) (p : N) (w : World) : option (World * Fiber) :=
  match MakeWorkerFiberImpl nm NORMAL stack_alloc t p w with
  | None => None
  | Some w1 =>
      match Start policy p t w1 with
      | None => None
      | Some w2 => Some (w2, {| impl_ := p |})
      end
  end.

(** [MakeFiber(Fn&& fn, Arg&&... arg)]:
    [fb2::Fiber(std::string_view{}, fn, arg...)]. *)
Definition MakeFiber (t : nat) (p : N) (w : World) : option (World * Fiber) :=
  Fiber_name EmptyString t p w.

(** [MakeFiber(fb2::Launch launch, Fn&& fn, Arg&&... arg)]:
    [fb2::Fiber(launch, std::string_view{}, fn, arg...)]. *)
Definition MakeFiber_launch (l : Launch) (t : nat) (p : N) (w : World)
  : option (World * Fiber) :=
  Fiber_policy_name l EmptyString t p w.

(** ** Handle objects and aliasing

    The handle objects of a program, by position.  [swap] takes its
    argument by reference, so the two handles of a call may be one
    object. *)

(** [hs[i].swap(hs[j])]: [impl_.swap(other.impl_)] writes [*this] first
    and [other] last. *)
Definition swap_at (i j : nat) (hs : list Fiber) : option (list Fiber) :=
  match hs !! i, hs !! j with
  | Some a, Some b =>
      Some (<[j := snd (swap a b)]> (<[i := fst (swap a b)]> hs))
  | _, _ => None
  end.

(** [Fiber n(std::move(hs[i]))]: a new object, constructed from
    [hs[i]]. *)
Definition move_construct_at (i : nat) (hs : list Fiber)
  : option (list Fiber) :=
  match hs !! i with
  | Some a => Some (<[i := snd (Fiber_move a)]> hs ++ [fst (Fiber_move a)])
  | None => None
  end.

(** What the header lets a program do with handles without creating or
    ending a fiber. *)
Inductive HandleOp :=
  | OpDefault
  | OpMove (i : nat)
  | OpSwap (i j : nat).

Definition handle_step (o : HandleOp) (hs : list Fiber)
  : option (list Fiber) :=
  match o with
  | OpDefault => Some (hs ++ [Fiber_default])
  | OpMove i => move_construct_at i hs
  | OpSwap i j => swap_at i j hs
  end.

Fixpoint handle_run (ops : list HandleOp) (hs : list Fiber)
  : option (list Fiber) :=
  match ops with
  | [] => Some hs
  | o :: ops' =>
      match handle_step o hs with
      | None => None
      | Some hs' => handle_run ops' hs'
      end
  end.

(** How many of the handles hold the control block at [p]. *)
Definition holders (p : N) (hs : list Fiber) : nat :=
  length (filter (λ h, impl_ h = p) hs).

(** ** Guard objects that are alive

    [live] lists the guards constructed and not yet destroyed.  A guard is
    constructed once, and only a live guard is destroyed, in any order. *)
Definition guard_live (live : list nat) (o : GuardOp) : option (list nat) :=
  match o with
  | Construct g => if decide (g ∈ live) then None else Some (g :: live)
  | Destroy g =>
      if decide (g ∈ live) then Some (filter (λ x, x ≠ g) live) else None
  end.

Fixpoint guards_live (live : list nat) (ops : list GuardOp)
  : option (list nat) :=
  match ops with
  | [] => Some live
  | o :: ops' =>
      match guard_live live o with
      | None => None
      | Some live' => guards_live live' ops'
      end
  end.

(** * Properties *)

(** ** Reading a world after an update *)

Lemma heap_store p f w : heap (store p f w) = <[p := f]> (heap w).
Proof. reflexivity. Qed.

Lemma threads_store p f w : threads (store p f w) = threads w.
Proof. reflexivity. Qed.

Lemma heap_activate t a w : heap (activate t a w) = heap w.
Proof. unfold activate. by destruct (threads w !! t). Qed.

Lemma now_activate t a w : now (activate t a w) = now w.
Proof. unfold activate. by destruct (threads w !! t). Qed.

Lemma resource_activate t a w :
  default_stack_resource (activate t a w) = default_stack_resource w.
Proof. unfold activate. by destruct (threads w !! t). Qed.

Lemma FiberActive_store p f w t : FiberActive (store p f w) t = FiberActive w t.
Proof. reflexivity. Qed.

Lemma threads_activate_lookup t a w t' s' :
  threads (activate t a w) !! t' = Some s' ↔
  ∃ s, threads w !! t' = Some s ∧
       s' = (if decide (t = t') then set_active a s else s).
Proof.
  unfold activate. destruct (threads w !! t) as [s|] eqn:Ht; simpl.
  - destruct (decide (t = t')) as [<-|Hne].
    + rewrite lookup_insert_eq. split.
      * intros [= <-]. eauto.
      * intros (s0 & Hs0 & ->). congruence.
    + rewrite lookup_insert_ne by done. split; [eauto|].
      by intros (s0 & Hs0 & ->).
  - destruct (decide (t = t')) as [<-|Hne].
    + rewrite Ht. split; [done|]. by intros (s0 & Hs0 & _).
    + split; [eauto|]. by intros (s0 & Hs0 & ->).
Qed.

Lemma FiberActive_activate_same t a w :
  is_Some (threads w !! t) → FiberActive (activate t a w) t = a.
Proof.
  intros [s Hs]. unfold FiberActive, activate. rewrite Hs. simpl.
  by rewrite lookup_insert_eq.
Qed.

Lemma FiberActive_activate_ne t t' a w :
  t ≠ t' → FiberActive (activate t a w) t' = FiberActive w t'.
Proof.
  intros Hne. unfold FiberActive, activate.
  destruct (threads w !! t); [|done]. simpl. by rewrite lookup_insert_ne.
Qed.

Lemma FiberActive_Some w t a :
  FiberActive w t = a → a ≠ nullptr →
  ∃ s, threads w !! t = Some s ∧ active s = a.
Proof.
  unfold FiberActive. destruct (threads w !! t) as [s|]; [eauto|congruence].
Qed.

Lemma wf_FiberActive w t :
  wf_world w → FiberActive w t ≠ nullptr →
  ∃ f s, heap w !! FiberActive w t = Some f ∧ run_state f = Running ∧
         threads w !! t = Some s ∧ scheduler f = sched_id s ∧
         active s = FiberActive w t.
Proof.
  intros Hwf Hne.
  destruct (FiberActive_Some w t _ eq_refl Hne) as (s & Hs & Ha).
  destruct (wf_active w Hwf t s Hs) as (f & Hf & Hr & Hsch); [congruence|].
  exists f, s. rewrite <- Ha. auto.
Qed.

Lemma wf_lookup_nonnull w p f :
  wf_world w → heap w !! p = Some f → p ≠ nullptr.
Proof. intros Hwf Hp ->. rewrite (wf_null w Hwf) in Hp. done. Qed.

(** In a well-formed world a fiber is active on at most one thread. *)
Lemma wf_active_unique w t1 t2 :
  wf_world w → FiberActive w t1 ≠ nullptr →
  FiberActive w t1 = FiberActive w t2 → t1 = t2.
Proof.
  intros Hwf Hne Heq.
  destruct (wf_FiberActive w t1 Hwf Hne) as (f1 & s1 & Hf1 & _ & Hs1 & Hsch1 & _).
  assert (Hne2 : FiberActive w t2 ≠ nullptr) by congruence.
  destruct (wf_FiberActive w t2 Hwf Hne2) as (f2 & s2 & Hf2 & _ & Hs2 & Hsch2 & _).
  rewrite Heq in Hf1. simplify_eq.
  eapply (wf_sched w Hwf); eauto. congruence.
Qed.

Lemma example_world_wf : wf_world example_world.
Proof.
  split.
  - reflexivity.
  - intros t s Ht _. unfold example_world in Ht. simpl in Ht.
    rewrite !lookup_insert_Some, lookup_empty in Ht.
    destruct Ht as [[<- <-]|[_ [[<- <-]|[_ ?]]]]; [| |done];
      eexists; (split; [reflexivity|done]).
  - intros t1 t2 s1 s2 H1 H2. unfold example_world in H1, H2. simpl in H1, H2.
    rewrite !lookup_insert_Some, lookup_empty in H1, H2.
    destruct H1 as [[<- <-]|[_ [[<- <-]|[_ ?]]]]; [| |done];
      destruct H2 as [[<- <-]|[_ [[<- <-]|[_ ?]]]]; done.
Qed.

(** ** The observers of the handle *)

Lemma IsJoinable_true this : IsJoinable this = true ↔ impl_ this ≠ nullptr.
Proof.
  unfold IsJoinable. rewrite negb_true_iff, N.eqb_neq. split; congruence.
Qed.

Lemma IsJoinable_false this : IsJoinable this = false ↔ impl_ this = nullptr.
Proof.
  unfold IsJoinable. rewrite negb_false_iff, N.eqb_eq. split; congruence.
Qed.

Lemma IsActive_true w t this :
  IsActive w t this = true ↔ impl_ this = FiberActive w t.
Proof. unfold IsActive. apply N.eqb_eq. Qed.

(** C10.  On an empty handle (default-constructed or moved-from) the
    observers are defined: [get_id] is the null identity 0, [IsJoinable]
    is false, and [IsActive] is false whenever some fiber is active on the
    calling thread. *)
Theorem empty_handle_observers (w : World) (t : nat) (this : Fiber) :
  impl_ this = nullptr →
  FiberActive w t ≠ nullptr →
  get_id this = 0%N ∧ IsJoinable this = false ∧ IsActive w t this = false.
Proof.
  intros Hnull Hact. unfold get_id. rewrite Hnull. split; [done|]. split.
  - by apply IsJoinable_false.
  - unfold IsActive. rewrite Hnull. apply N.eqb_neq. congruence.
Qed.

Lemma empty_handle_observers_witness :
  (get_id Fiber_default = 0%N ∧ IsJoinable Fiber_default = false
   ∧ IsActive example_world 0 Fiber_default = false)
  ∧ (get_id (snd (Fiber_move (mkFiber 4096))) = 0%N
     ∧ IsJoinable (snd (Fiber_move (mkFiber 4096))) = false
     ∧ IsActive example_world 1 (snd (Fiber_move (mkFiber 4096))) = false).
Proof.
  split.
  - apply (empty_handle_observers example_world 0 Fiber_default);
      [reflexivity | vm_compute; discriminate].
  - apply (empty_handle_observers example_world 1 (snd (Fiber_move (mkFiber 4096))));
      [reflexivity | vm_compute; discriminate].
Defined.

(** C2, as stated, fails: the fiber at 4096 is the Running fiber of the
    scheduler that owns it (thread 0), yet [IsActive], called on thread 1,
    is false for a handle of it. *)
Lemma IsActive_not_running_on_owner :
  wf_world example_world ∧ IsJoinable (mkFiber 4096) = true ∧
  ¬ (IsActive example_world 1 (mkFiber 4096) = true
     ↔ RunningOnOwner example_world (impl_ (mkFiber 4096))).
Proof.
  split; [apply example_world_wf|]. split; [reflexivity|].
  intros [_ H].
  assert (Hr : RunningOnOwner example_world (impl_ (mkFiber 4096))).
  { exists (example_fcb 256 Running), 0, (mkScheduler 256 4096 0).
    repeat split; reflexivity. }
  apply H in Hr. vm_compute in Hr. discriminate.
Qed.

(** C2, amended.  For a non-empty handle, [IsActive] is true iff the
    handle's control block is the fiber active on the calling carrier
    thread.  When it is true the block is the Running one of its owning
    scheduler; and for a handle whose owning scheduler is the one of the
    calling thread, [IsActive] is true iff the block is the Running one of
    its owning scheduler. *)
Theorem IsActive_iff_calling_fiber (w : World) (t : nat) (this : Fiber) :
  wf_world w →
  IsJoinable this = true →
  (IsActive w t this = true ↔ impl_ this = FiberActive w t)
  ∧ (IsActive w t this = true → RunningOnOwner w (impl_ this))
  ∧ (∀ f s, heap w !! impl_ this = Some f → threads w !! t = Some s →
            scheduler f = sched_id s →
            (IsActive w t this = true ↔ RunningOnOwner w (impl_ this))).
Proof.
  intros Hwf Hj. apply IsJoinable_true in Hj.
  assert (Hrun : IsActive w t this = true → RunningOnOwner w (impl_ this)).
  { intros Ha. apply IsActive_true in Ha.
    assert (Hne : FiberActive w t ≠ nullptr) by congruence.
    destruct (wf_FiberActive w t Hwf Hne) as (f & s & Hf & Hr & Hs & Hsch & Hact).
    exists f, t, s. rewrite Ha. auto. }
  split; [apply IsActive_true|]. split; [exact Hrun|].
  intros f s Hf Hs Hsch. split; [exact Hrun|].
  intros (f' & t' & s' & Hf' & Hr' & Hs' & Hsch' & Hact').
  assert (t' = t) as ->.
  { eapply (wf_sched w Hwf); eauto. congruence. }
  apply IsActive_true. unfold FiberActive. rewrite Hs. congruence.
Qed.

Lemma IsActive_iff_calling_fiber_witness :
  (IsActive example_world 0 (mkFiber 4096) = true
   ↔ impl_ (mkFiber 4096) = FiberActive example_world 0)
  ∧ (IsActive example_world 0 (mkFiber 4096) = true
     → RunningOnOwner example_world (impl_ (mkFiber 4096)))
  ∧ (∀ f s, heap example_world !! impl_ (mkFiber 4096) = Some f →
            threads example_world !! 0 = Some s →
            scheduler f = sched_id s →
            (IsActive example_world 0 (mkFiber 4096) = true
             ↔ RunningOnOwner example_world (impl_ (mkFiber 4096)))).
Proof.
  apply (IsActive_iff_calling_fiber example_world 0 (mkFiber 4096));
    [apply example_world_wf | reflexivity].
Defined.

(** C6.  For a non-empty handle, called where a fiber is active on the
    calling thread, [IsLocal] dereferences two control blocks that exist
    (no null pointer is followed) and is true iff the owning scheduler of
    the handle's block equals the scheduler of the active fiber. *)
Theorem IsLocal_compares_schedulers (w : World) (t : nat) (this : Fiber) :
  wf_world w →
  handle_ok w this →
  IsJoinable this = true →
  FiberActive w t ≠ nullptr →
  ∃ f a s b,
    heap w !! impl_ this = Some f ∧
    heap w !! FiberActive w t = Some a ∧
    threads w !! t = Some s ∧ scheduler a = sched_id s ∧
    IsLocal w t this = Some b ∧
    (b = true ↔ scheduler f = scheduler a).
Proof.
  intros Hwf Hok Hj Hact. apply IsJoinable_true in Hj.
  destruct Hok as [Hnull|[f Hf]]; [done|].
  destruct (wf_FiberActive w t Hwf Hact) as (a & s & Ha & _ & Hs & Hsch & _).
  exists f, a, s, (scheduler f =? scheduler a)%N.
  unfold IsLocal. rewrite Hf, Ha. repeat split; auto.
  - apply N.eqb_eq.
  - apply N.eqb_eq.
Qed.

Lemma IsLocal_compares_schedulers_witness :
  ∃ f a s b,
    heap example_world !! impl_ (mkFiber 12288) = Some f ∧
    heap example_world !! FiberActive example_world 1 = Some a ∧
    threads example_world !! 1 = Some s ∧ scheduler a = sched_id s ∧
    IsLocal example_world 1 (mkFiber 12288) = Some b ∧
    (b = true ↔ scheduler f = scheduler a).
Proof.
  apply (IsLocal_compares_schedulers example_world 1 (mkFiber 12288)).
  - apply example_world_wf.
  - right. vm_compute. eauto.
  - reflexivity.
  - vm_compute. discriminate.
Defined.

Example IsLocal_example_other_thread :
  IsLocal example_world 1 (mkFiber 12288) = Some false
  ∧ IsLocal example_world 0 (mkFiber 12288) = Some true
  ∧ IsLocal example_world 0 Fiber_default = None.
Proof. repeat split; vm_compute; reflexivity. Qed.

(** ** One step, seen from one control block *)

Lemma wf_actor_running w t f :
  wf_world w → heap w !! FiberActive w t = Some f → run_state f = Running.
Proof.
  intros Hwf Hf.
  assert (Hne : FiberActive w t ≠ nullptr) by (eapply wf_lookup_nonnull; eauto).
  destruct (wf_FiberActive w t Hwf Hne) as (f' & s & Hf' & Hr & _).
  congruence.
Qed.

Lemma can_call_inv w t :
  can_call w t = true →
  ∃ f, heap w !! FiberActive w t = Some f ∧ wait_ f = NotWaiting.
Proof.
  unfold can_call. destruct (heap w !! FiberActive w t) as [f|]; [|done].
  intros H. apply bool_decide_eq_true in H. eauto.
Qed.

Ltac unfold_ops :=
  unfold Tick, Switch, TimerWake, Preempt, Terminate, ThisFiber.Yield,
    ThisFiber.SleepFor, ThisFiber.SleepUntil, FiberInterface_Yield, WaitUntil,
    Fiber_opts, MakeWorkerFiberImpl, Start, Join, Join_resume, Join_finish,
    Detach, SetPrintStacktraceCb in *.

Ltac heap_simpl :=
  repeat first
    [ rewrite heap_activate
    | rewrite heap_store
    | rewrite lookup_insert_eq
    | rewrite lookup_insert_ne by congruence ].

Lemma heap_Enter t w : heap (EnterFiberAtomicSection t w) = heap w.
Proof. unfold EnterFiberAtomicSection. by destruct (threads w !! t). Qed.

Lemma heap_Leave t w : heap (LeaveFiberAtomicSection t w) = heap w.
Proof. unfold LeaveFiberAtomicSection. by destruct (threads w !! t). Qed.

Lemma wake_joiner_scheduler g f : scheduler (wake_joiner g f) = scheduler f.
Proof. unfold wake_joiner. by case_bool_decide. Qed.

Lemma wake_joiner_stack g f : stack_region (wake_joiner g f) = stack_region f.
Proof. unfold wake_joiner. by case_bool_decide. Qed.

Ltac actor_running Hwf :=
  match goal with
  | H : heap ?w !! FiberActive ?w ?t = Some ?x |- _ =>
      rewrite (wf_actor_running w t x Hwf H)
  end.

Ltac fcb_same :=
  eexists; split; [first [eassumption | reflexivity] |];
  repeat split; simpl; auto; try constructor.

Lemma step_fcb_trans e w w' q f :
  wf_world w → step e w = Some w' → heap w !! q = Some f →
  ∃ f', heap w' !! q = Some f' ∧ scheduler f' = scheduler f ∧
        stack_region f' = stack_region f ∧
        fcb_trans w q e (run_state f, wait_ f) (run_state f', wait_ f').
Proof.
  intros Hwf Hstep Hq.
  destruct e; simpl in Hstep.
  - (* EvTick *)
    unfold_ops. case_match; simplify_eq. fcb_same.
  - (* EvSwitch *)
    unfold_ops. repeat case_match; simplify_eq.
    heap_simpl. destruct (decide (p = q)) as [->|Hne]; heap_simpl; [|fcb_same].
    simplify_eq. eexists. repeat split; simpl.
    rewrite !andb_true_iff in *. destruct_and!.
    match goal with
    | H : bool_decide _ = true |- _ => apply bool_decide_eq_true in H; rewrite H
    end.
    constructor.
  - (* EvTimerWake *)
    unfold_ops. repeat case_match; simplify_eq.
    heap_simpl. destruct (decide (p = q)) as [->|Hne]; heap_simpl; [|fcb_same].
    simplify_eq. eexists. repeat split; simpl.
    rewrite !andb_true_iff in *. destruct_and!.
    match goal with
    | H : bool_decide _ = true |- _ => apply bool_decide_eq_true in H; rewrite H
    end.
    match goal with H : wait_ _ = _ |- _ => rewrite H end.
    constructor. by apply Z.leb_le.
  - (* EvPreempt *)
    unfold_ops. destruct (preemptible w t); [|done].
    destruct (heap w !! FiberActive w t) as [fa|] eqn:Hfa; [|done].
    simplify_eq. heap_simpl.
    destruct (decide (FiberActive w t = q)) as [<-|Hne]; heap_simpl; [|fcb_same].
    simplify_eq. eexists. repeat split; simpl.
    actor_running Hwf. by constructor.
  - (* EvTerminate *)
    destruct (can_call w t) eqn:Hcan; [|done].
    apply can_call_inv in Hcan as (fa & Hfa & Hwa).
    unfold_ops. rewrite Hfa in Hstep. simplify_eq.
    rewrite heap_activate. simpl. rewrite lookup_fmap.
    destruct (decide (FiberActive w t = q)) as [<-|Hne].
    + simplify_eq. rewrite lookup_insert_eq. simpl.
      eexists. split; [reflexivity|].
      unfold wake_joiner.
      rewrite bool_decide_eq_false_2 by (simpl; intros [? _]; done).
      repeat split; simpl. rewrite Hwa.
      actor_running Hwf. by constructor.
    + rewrite lookup_insert_ne by done. rewrite Hq. simpl.
      eexists. split; [reflexivity|].
      rewrite wake_joiner_scheduler, wake_joiner_stack. repeat split.
      unfold wake_joiner. case_bool_decide as Hw; [|constructor].
      destruct Hw as [Hr Hwt]. simpl. rewrite Hr, Hwt. constructor.
  - (* EvYield *)
    destruct (can_call w t) eqn:Hcan; [|done].
    apply can_call_inv in Hcan as (fa & Hfa & Hwa).
    unfold_ops. rewrite Hfa in Hstep. simplify_eq. heap_simpl.
    destruct (decide (FiberActive w t = q)) as [<-|Hne]; heap_simpl; [|fcb_same].
    simplify_eq. eexists. repeat split; simpl. rewrite Hwa.
    actor_running Hwf. by constructor.
  - (* EvSleepUntil *)
    destruct (can_call w t) eqn:Hcan; [|done].
    apply can_call_inv in Hcan as (fa & Hfa & Hwa).
    unfold_ops. rewrite Hfa in Hstep. simplify_eq. heap_simpl.
    destruct (decide (FiberActive w t = q)) as [<-|Hne]; heap_simpl; [|fcb_same].
    simplify_eq. eexists. repeat split; simpl. rewrite Hwa.
    actor_running Hwf. by constructor.
  - (* EvSleepFor *)
    destruct (can_call w t) eqn:Hcan; [|done].
    apply can_call_inv in Hcan as (fa & Hfa & Hwa).
    unfold_ops. rewrite Hfa in Hstep. simplify_eq. heap_simpl.
    destruct (decide (FiberActive w t = q)) as [<-|Hne]; heap_simpl; [|fcb_same].
    simplify_eq. eexists. repeat split; simpl. rewrite Hwa.
    actor_running Hwf. by constructor.
  - (* EvCreate *)
    destruct (can_call w t) eqn:Hcan; [|done].
    apply can_call_inv in Hcan as (fa & Hfa & Hwa).
    unfold_ops.
    destruct (threads w !! t) as [s|]; [|done].
    destruct (p =? nullptr)%N; [done|].
    destruct (heap w !! p) as [?|] eqn:Hp; [done|]. simpl in Hstep.
    rewrite lookup_insert_eq in Hstep.
    assert (Hpq : p ≠ q) by congruence.
    assert (Hpa : p ≠ FiberActive w t) by congruence.
    destruct (launch opts) eqn:Hl; simpl in Hstep.
    + rewrite FiberActive_store in Hstep. rewrite lookup_insert_ne in Hstep by done.
      rewrite Hfa in Hstep. simplify_eq. heap_simpl.
      destruct (decide (FiberActive w t = q)) as [<-|Hne]; heap_simpl; [|fcb_same].
      simplify_eq. eexists. repeat split; simpl. rewrite Hwa.
      actor_running Hwf. by econstructor.
    + simplify_eq. simpl. heap_simpl. fcb_same.
  - (* EvJoin *)
    destruct (can_call w t) eqn:Hcan; [|done].
    apply can_call_inv in Hcan as (fa & Hfa & Hwa).
    unfold_ops. destruct (IsJoinable h); [|done]. simpl in Hstep.
    destruct (heap w !! impl_ h) as [fg|] eqn:Hg; [|done].
    rewrite Hfa in Hstep.
    destruct (bool_decide (join_state fg = Joinable)); [|done]. simpl in Hstep.
    case_bool_decide as Hterm; simpl in Hstep; simplify_eq; simpl.
    + heap_simpl.
      destruct (decide (impl_ h = q)) as [<-|Hne]; heap_simpl; [|fcb_same].
      simplify_eq. fcb_same.
    + heap_simpl.
      destruct (decide (FiberActive w t = q)) as [<-|Hne]; heap_simpl; [|fcb_same].
      simplify_eq. eexists. repeat split; simpl. rewrite Hwa.
      actor_running Hwf. constructor; [done|].
      unfold run_state_of. rewrite Hg. simpl. congruence.
  - (* EvJoinResume *)
    unfold_ops.
    destruct (heap w !! FiberActive w t) as [fc|] eqn:Hc; [|done].
    case_bool_decide as Hwt; [|done].
    rewrite heap_store in Hstep.
    destruct (decide (FiberActive w t = impl_ h)) as [Hcg|Hcg].
    + rewrite <- Hcg in *. rewrite lookup_insert_eq in Hstep.
      simpl in Hstep. simplify_eq. simpl.
      heap_simpl.
      destruct (decide (FiberActive w t = q)) as [<-|Hne]; heap_simpl; [|fcb_same].
      simplify_eq. eexists. repeat split; simpl. rewrite Hwt, Hcg.
      actor_running Hwf. by constructor.
    + rewrite lookup_insert_ne in Hstep by done.
      destruct (heap w !! impl_ h) as [fg|] eqn:Hg; [|done].
      simpl in Hstep. simplify_eq. simpl. heap_simpl.
      destruct (decide (impl_ h = q)) as [<-|Hne]; heap_simpl.
      { simplify_eq. fcb_same. }
      destruct (decide (FiberActive w t = q)) as [<-|Hne2]; heap_simpl; [|fcb_same].
      simplify_eq. eexists. repeat split; simpl. rewrite Hwt.
      actor_running Hwf. by constructor.
  - (* EvDetach *)
    destruct (can_call w t); [|done]. unfold_ops.
    destruct (IsJoinable h); [|done]. simpl in Hstep.
    destruct (heap w !! impl_ h) as [fg|] eqn:Hg; [|done].
    simpl in Hstep. simplify_eq. simpl. heap_simpl.
    destruct (decide (impl_ h = q)) as [<-|Hne]; heap_simpl; [|fcb_same].
    simplify_eq. fcb_same.
  - (* EvSetPrintStacktraceCb *)
    destruct (can_call w t); [|done]. unfold_ops.
    destruct (heap w !! FiberActive w t) as [fa|] eqn:Hfa; [|done].
    simplify_eq. heap_simpl.
    destruct (decide (FiberActive w t = q)) as [<-|Hne]; heap_simpl; [|fcb_same].
    simplify_eq. fcb_same.
  - (* EvEnterAtomic *)
    destruct (can_call w t); [|done]. simplify_eq. rewrite heap_Enter. fcb_same.
  - (* EvLeaveAtomic *)
    destruct (can_call w t); [|done]. simplify_eq. rewrite heap_Leave. fcb_same.
Qed.


(** ** What the options-based constructor builds *)

Lemma Fiber_opts_inv opts t p w w' h :
  Fiber_opts opts t p w = Some (w', h) →
  ∃ s,
    threads w !! t = Some s ∧ p ≠ nullptr ∧ heap w !! p = None ∧
    h = {| impl_ := p |} ∧
    let fnew := {| scheduler := sched_id s; name_ := name opts;
                   prio_ := priority opts;
                   stack_region := allocate (opts_stack_alloc opts w);
                   run_state := Created; join_state := Joinable;
                   wait_ := NotWaiting; stacktrace_print_cb_ := None |} in
    let w1 := store p fnew w in
    w' = match launch opts with
         | post => store p (set_run_state Runnable fnew) w1
         | dispatch =>
             activate t p
               (store p (set_run_state Running fnew)
                  match heap w1 !! FiberActive w t with
                  | Some fc =>
                      store (FiberActive w t) (set_run_state Runnable fc) w1
                  | None => w1
                  end)
         end.
Proof.
  unfold Fiber_opts, MakeWorkerFiberImpl. intros H.
  destruct (threads w !! t) as [s|] eqn:Hs; [|done].
  destruct (p =? nullptr)%N eqn:Hpn; [done|]. apply N.eqb_neq in Hpn.
  destruct (heap w !! p) as [?|] eqn:Hp; [done|].
  exists s. split; [done|]. split; [done|]. split; [done|].
  unfold Start in H. rewrite (heap_store p), lookup_insert_eq in H.
  rewrite FiberActive_store in H.
  destruct (launch opts); by simplify_eq.
Qed.

(** ** Well-formedness is kept by every step *)

Lemma wf_store_keep w p f f' :
  wf_world w → heap w !! p = Some f → scheduler f' = scheduler f →
  (run_state f = Running → run_state f' = Running) →
  wf_world (store p f' w).
Proof.
  intros Hwf Hp Hsch Hrun.
  assert (Hpn : p ≠ nullptr) by (eapply wf_lookup_nonnull; eauto).
  split.
  - rewrite heap_store, lookup_insert_ne by done. apply Hwf.
  - intros t s Ht Ha. rewrite threads_store in Ht.
    destruct (wf_active w Hwf t s Ht Ha) as (fa & Hfa & Hr & Hs).
    rewrite heap_store. destruct (decide (p = active s)) as [->|Hne].
    + rewrite lookup_insert_eq. simplify_eq. exists f'.
      split; [done|]. split; [auto|congruence].
    + rewrite lookup_insert_ne by done. eauto.
  - apply Hwf.
Qed.

Lemma wf_store_new w p f' :
  wf_world w → heap w !! p = None → p ≠ nullptr → wf_world (store p f' w).
Proof.
  intros Hwf Hp Hpn. split.
  - rewrite heap_store, lookup_insert_ne by done. apply Hwf.
  - intros t s Ht Ha. rewrite threads_store in Ht.
    destruct (wf_active w Hwf t s Ht Ha) as (fa & Hfa & Hr & Hs).
    rewrite heap_store, lookup_insert_ne by congruence. eauto.
  - apply Hwf.
Qed.

Lemma wf_threads_sched_id w t a t1 s1 :
  threads (activate t a w) !! t1 = Some s1 →
  ∃ s, threads w !! t1 = Some s ∧ sched_id s1 = sched_id s.
Proof.
  intros H. apply threads_activate_lookup in H as (s & Hs & ->).
  exists s. split; [done|]. by destruct (decide (t = t1)).
Qed.

Lemma wf_sched_activate w t a :
  (∀ t1 t2 s1 s2, threads w !! t1 = Some s1 → threads w !! t2 = Some s2 →
                  sched_id s1 = sched_id s2 → t1 = t2) →
  ∀ t1 t2 s1 s2,
    threads (activate t a w) !! t1 = Some s1 →
    threads (activate t a w) !! t2 = Some s2 →
    sched_id s1 = sched_id s2 → t1 = t2.
Proof.
  intros Hu t1 t2 s1 s2 H1 H2 Heq.
  apply wf_threads_sched_id in H1 as (s1' & H1 & E1).
  apply wf_threads_sched_id in H2 as (s2' & H2 & E2).
  eapply Hu; eauto. congruence.
Qed.

(** The active fiber of [t] is suspended: whatever its block becomes, the
    world stays well-formed. *)
Lemma wf_suspend w t f' :
  wf_world w → is_Some (heap w !! FiberActive w t) →
  wf_world (activate t nullptr (store (FiberActive w t) f' w)).
Proof.
  intros Hwf [f Hf].
  assert (Hn : FiberActive w t ≠ nullptr) by (eapply wf_lookup_nonnull; eauto).
  split.
  - rewrite heap_activate, heap_store, lookup_insert_ne by done. apply Hwf.
  - intros t' s' Ht' Ha'.
    apply threads_activate_lookup in Ht' as (s & Hs & ->).
    rewrite threads_store in Hs.
    destruct (decide (t = t')) as [<-|Hne]; [done|].
    destruct (wf_active w Hwf t' s Hs Ha') as (fa & Hfa & Hr & Hsch).
    assert (Hdiff : FiberActive w t ≠ active s).
    { intros Heq. apply Hne. apply (wf_active_unique w t t' Hwf Hn).
      unfold FiberActive at 2. by rewrite Hs. }
    rewrite heap_activate, heap_store, lookup_insert_ne by done. eauto.
  - apply wf_sched_activate. rewrite threads_store. apply Hwf.
Qed.

(** The scheduler of [t] makes [p], which was not Running, its active
    fiber. *)
Lemma wf_switch w t s p f f' :
  wf_world w → threads w !! t = Some s → heap w !! p = Some f →
  run_state f ≠ Running → run_state f' = Running →
  scheduler f' = sched_id s →
  wf_world (activate t p (store p f' w)).
Proof.
  intros Hwf Hs Hp Hnr Hr Hsch.
  assert (Hn : p ≠ nullptr) by (eapply wf_lookup_nonnull; eauto).
  split.
  - rewrite heap_activate, heap_store, lookup_insert_ne by done. apply Hwf.
  - intros t' s' Ht' Ha'.
    apply threads_activate_lookup in Ht' as (s0 & Hs0 & ->).
    rewrite threads_store in Hs0. rewrite heap_activate, heap_store.
    destruct (decide (t = t')) as [<-|Hne].
    + simpl. rewrite lookup_insert_eq. simplify_eq. eauto.
    + destruct (wf_active w Hwf t' s0 Hs0 Ha') as (fa & Hfa & Hra & Hscha).
      rewrite lookup_insert_ne by congruence. eauto.
  - apply wf_sched_activate. rewrite threads_store. apply Hwf.
Qed.

Lemma activate_twice t a b p f w :
  activate t a (store p f (activate t b w)) = activate t a (store p f w).
Proof.
  unfold activate. simpl. destruct (threads w !! t) as [s|] eqn:Hs; simpl.
  - rewrite lookup_insert_eq. simpl. unfold with_threads, store, with_heap.
    simpl. f_equal. by rewrite insert_insert_eq.
  - by rewrite Hs.
Qed.

Lemma store_activate t a p f w :
  store p f (activate t a w) = activate t a (store p f w).
Proof. unfold activate. simpl. by destruct (threads w !! t). Qed.

Lemma with_heap_activate t a h w :
  with_heap h (activate t a w) = activate t a (with_heap h w).
Proof. unfold activate. simpl. by destruct (threads w !! t). Qed.

(** A change of all blocks that keeps their scheduler and keeps the
    Running ones Running. *)
Lemma wf_fmap w (g : FiberInterface → FiberInterface) :
  wf_world w →
  (∀ f, scheduler (g f) = scheduler f) →
  (∀ f, run_state f = Running → run_state (g f) = Running) →
  wf_world (with_heap (g <$> heap w) w).
Proof.
  intros Hwf Hsch Hrun. split.
  - simpl. rewrite lookup_fmap, (wf_null w Hwf). done.
  - intros t s Ht Ha. simpl in *.
    destruct (wf_active w Hwf t s Ht Ha) as (fa & Hfa & Hr & Hs).
    exists (g fa). rewrite lookup_fmap, Hfa. simpl.
    split; [done|]. split; [auto|]. by rewrite Hsch.
  - apply Hwf.
Qed.

Lemma wf_atomic w t (d : Scheduler → Z) :
  wf_world w →
  wf_world (match threads w !! t with
            | Some s =>
                with_threads (<[t := set_atomic_section (d s) s]> (threads w)) w
            | None => w
            end).
Proof.
  intros Hwf. destruct (threads w !! t) as [s0|] eqn:Hs0; [|done].
  assert (Hl : ∀ t' s', <[t := set_atomic_section (d s0) s0]> (threads w) !! t' = Some s' →
               ∃ s, threads w !! t' = Some s ∧ sched_id s' = sched_id s ∧
                    active s' = active s).
  { intros t' s' H. destruct (decide (t = t')) as [<-|Hne].
    - rewrite lookup_insert_eq in H. simplify_eq. eauto.
    - rewrite lookup_insert_ne in H by done. eauto. }
  split; simpl.
  - apply Hwf.
  - intros t' s' Ht' Ha'. apply Hl in Ht' as (s & Hs & E1 & E2).
    rewrite E1, E2 in *. by apply (wf_active w Hwf t' s).
  - intros t1 t2 s1 s2 H1 H2 Heq.
    apply Hl in H1 as (s1' & H1 & E1 & _). apply Hl in H2 as (s2' & H2 & E2 & _).
    eapply (wf_sched w Hwf); eauto. congruence.
Qed.

Lemma wf_with_now w n : wf_world w → wf_world (with_now n w).
Proof. intros Hwf. split; simpl; apply Hwf. Qed.

Lemma wf_step e w w' : wf_world w → step e w = Some w' → wf_world w'.
Proof.
  intros Hwf Hstep. destruct e; simpl in Hstep.
  - (* EvTick *)
    unfold_ops. case_match; simplify_eq. by apply wf_with_now.
  - (* EvSwitch *)
    unfold_ops. destruct (threads w !! t) as [s|] eqn:Hs; [|done].
    destruct (heap w !! p) as [f|] eqn:Hp; [|done].
    case_match; [|done]. rewrite !andb_true_iff in *. destruct_and!.
    simplify_eq.
    match goal with H : bool_decide _ = true |- _ => apply bool_decide_eq_true in H end.
    eapply wf_switch; eauto; simpl; [congruence|]. by apply N.eqb_eq.
  - (* EvTimerWake *)
    unfold_ops. repeat case_match; simplify_eq.
    eapply wf_store_keep; eauto. simpl.
    rewrite !andb_true_iff in *. destruct_and!.
    match goal with H : bool_decide _ = true |- _ => apply bool_decide_eq_true in H end.
    congruence.
  - (* EvPreempt *)
    unfold_ops. destruct (preemptible w t); [|done].
    destruct (heap w !! FiberActive w t) as [fa|] eqn:Hfa; [|done].
    simplify_eq. apply wf_suspend; eauto.
  - (* EvTerminate *)
    destruct (can_call w t) eqn:Hcan; [|done].
    apply can_call_inv in Hcan as (fa & Hfa & Hwa).
    unfold_ops. rewrite Hfa in Hstep. simplify_eq.
    rewrite <- with_heap_activate.
    pose proof (wf_suspend w t (set_run_state Terminated fa) Hwf (mk_is_Some _ _ Hfa))
      as Hwf2.
    pose proof (wf_fmap _ (wake_joiner (FiberActive w t)) Hwf2) as Hwf3.
    rewrite heap_activate, heap_store in Hwf3.
    rewrite <- store_activate in Hwf3. apply Hwf3.
    + apply wake_joiner_scheduler.
    + intros f Hr. unfold wake_joiner. case_bool_decide as Hw; [|done].
      destruct Hw as [Hw _]. congruence.
  - (* EvYield *)
    destruct (can_call w t) eqn:Hcan; [|done].
    apply can_call_inv in Hcan as (fa & Hfa & Hwa).
    unfold_ops. rewrite Hfa in Hstep. simplify_eq. apply wf_suspend; eauto.
  - (* EvSleepUntil *)
    destruct (can_call w t) eqn:Hcan; [|done].
    apply can_call_inv in Hcan as (fa & Hfa & Hwa).
    unfold_ops. rewrite Hfa in Hstep. simplify_eq. apply wf_suspend; eauto.
  - (* EvSleepFor *)
    destruct (can_call w t) eqn:Hcan; [|done].
    apply can_call_inv in Hcan as (fa & Hfa & Hwa).
    unfold_ops. rewrite Hfa in Hstep. simplify_eq. apply wf_suspend; eauto.
  - (* EvCreate *)
    destruct (can_call w t) eqn:Hcan; [|done].
    apply can_call_inv in Hcan as (fa & Hfa & Hwa).
    destruct (Fiber_opts opts t p w) as [[w2 h]|] eqn:Hc; [|done].
    simpl in Hstep. simplify_eq.
    apply Fiber_opts_inv in Hc as (s & Hs & Hpn & Hp & -> & Hw').
    assert (Hpa : p ≠ FiberActive w t) by congruence.
    simpl in Hw'. rewrite lookup_insert_ne, Hfa in Hw' by done.
    match type of Hw' with
    | context [store p ?f w] =>
        pose proof (wf_store_new w p f Hwf Hp Hpn) as Hwf1;
        assert (Hp1 : heap (store p f w) !! p = Some f)
          by (by rewrite heap_store, lookup_insert_eq);
        assert (Hfa1 : heap (store p f w) !! FiberActive (store p f w) t = Some fa)
          by (by rewrite FiberActive_store, heap_store, lookup_insert_ne);
        set (w1 := store p f w) in *
    end.
    destruct (launch opts); subst w'.
    + rewrite <- activate_twice with (b := nullptr).
      change (FiberActive w t) with (FiberActive w1 t).
      eapply wf_switch.
      * apply wf_suspend; eauto.
      * apply threads_activate_lookup. exists s. split; [done|].
        rewrite decide_True by done. reflexivity.
      * rewrite heap_activate, heap_store, lookup_insert_ne by done. exact Hp1.
      * done.
      * done.
      * done.
    + eapply wf_store_keep; eauto. done.
  - (* EvJoin *)
    destruct (can_call w t) eqn:Hcan; [|done].
    apply can_call_inv in Hcan as (fa & Hfa & Hwa).
    unfold_ops. destruct (IsJoinable h); [|done]. simpl in Hstep.
    destruct (heap w !! impl_ h) as [fg|] eqn:Hg; [|done].
    rewrite Hfa in Hstep.
    destruct (bool_decide (join_state fg = Joinable)); [|done]. simpl in Hstep.
    case_bool_decide as Hterm; simpl in Hstep; simplify_eq; simpl.
    + eapply wf_store_keep; eauto.
    + apply wf_suspend; eauto.
  - (* EvJoinResume *)
    unfold_ops.
    destruct (heap w !! FiberActive w t) as [fc|] eqn:Hc; [|done].
    case_bool_decide as Hwt; [|done].
    assert (Hwf1 : wf_world (store (FiberActive w t) (set_wait NotWaiting fc) w)).
    { eapply wf_store_keep; eauto. }
    destruct (heap _ !! impl_ h) as [fg|] eqn:Hg; [|done].
    simpl in Hstep. simplify_eq. eapply wf_store_keep; eauto.
  - (* EvDetach *)
    destruct (can_call w t); [|done]. unfold_ops.
    destruct (IsJoinable h); [|done]. simpl in Hstep.
    destruct (heap w !! impl_ h) as [fg|] eqn:Hg; [|done].
    simpl in Hstep. simplify_eq. eapply wf_store_keep; eauto.
  - (* EvSetPrintStacktraceCb *)
    destruct (can_call w t); [|done]. unfold_ops.
    destruct (heap w !! FiberActive w t) as [fa|] eqn:Hfa; [|done].
    simplify_eq. eapply wf_store_keep; eauto.
  - (* EvEnterAtomic *)
    destruct (can_call w t); [|done]. simplify_eq.
    by apply (wf_atomic w t (λ s, atomic_section s + 1)%Z).
  - (* EvLeaveAtomic *)
    destruct (can_call w t); [|done]. simplify_eq.
    by apply (wf_atomic w t (λ s, atomic_section s - 1)%Z).
Qed.

Lemma wf_run es : ∀ w w', wf_world w → run es w = Some w' → wf_world w'.
Proof.
  induction es as [|e es IH]; intros w w' Hwf Hrun; simpl in Hrun.
  - by simplify_eq.
  - destruct (step e w) as [w1|] eqn:Hstep; [|done].
    eapply IH; [|done]. eapply wf_step; eauto.
Qed.

(** ** Termination wakes the joiners *)

Lemma Terminate_step t w w' :
  step (EvTerminate t) w = Some w' →
  ∃ fa, heap w !! FiberActive w t = Some fa ∧
        heap w' = wake_joiner (FiberActive w t)
                    <$> <[FiberActive w t := set_run_state Terminated fa]> (heap w).
Proof.
  simpl. destruct (can_call w t) eqn:Hcan; [|done].
  apply can_call_inv in Hcan as (fa & Hfa & _).
  unfold Terminate. rewrite Hfa. intros [= <-]. exists fa. split; [done|].
  by rewrite heap_activate.
Qed.

Lemma wake_joiner_other g f : run_state f ≠ Waiting → wake_joiner g f = f.
Proof.
  intros H. unfold wake_joiner. case_bool_decide as Hw; [|done].
  by destruct Hw.
Qed.

Lemma Terminate_terminates t w w' :
  step (EvTerminate t) w = Some w' →
  run_state_of w' (FiberActive w t) = Some Terminated.
Proof.
  intros H. apply Terminate_step in H as (fa & Hfa & Hh).
  unfold run_state_of. rewrite Hh, lookup_fmap, lookup_insert_eq.
  change (wake_joiner (FiberActive w t) <$> Some (set_run_state Terminated fa))
    with (Some (wake_joiner (FiberActive w t) (set_run_state Terminated fa))).
  by rewrite wake_joiner_other.
Qed.

Lemma Terminate_wakes t w w' c :
  wf_world w →
  step (EvTerminate t) w = Some w' →
  join_blocked w c (FiberActive w t) →
  ∃ fc', heap w' !! c = Some fc' ∧ run_state fc' = Runnable ∧
         wait_ fc' = UntilTerminated (FiberActive w t).
Proof.
  intros Hwf H (fc & fg & Hc & Hr & Hwt & Hg & Hrg).
  apply Terminate_step in H as (fa & Hfa & Hh).
  rewrite Hh, lookup_fmap.
  assert (Hne : FiberActive w t ≠ c).
  { intros Heq. rewrite Heq in Hfa.
    pose proof (wf_actor_running w t fc Hwf) as Hrun.
    rewrite Heq in Hrun. specialize (Hrun Hc). congruence. }
  rewrite lookup_insert_ne by done. rewrite Hc. simpl.
  unfold wake_joiner. rewrite bool_decide_eq_true_2 by done.
  eexists. split; [reflexivity|]. simpl. done.
Qed.

(** ** A suspended Join, step by step *)

Lemma is_waiting_true w c :
  is_waiting w c = true ↔ ∃ f, heap w !! c = Some f ∧ run_state f = Waiting.
Proof.
  unfold is_waiting, run_state_of. rewrite bool_decide_eq_true.
  destruct (heap w !! c) as [f|]; simpl; split.
  - intros [= H]. eauto.
  - intros (f' & [= <-] & H). by rewrite H.
  - done.
  - by intros (f' & ? & _).
Qed.

Lemma is_waiting_false w c f :
  heap w !! c = Some f → run_state f ≠ Waiting → is_waiting w c = false.
Proof.
  intros Hc Hr. unfold is_waiting, run_state_of. rewrite Hc. simpl.
  apply bool_decide_eq_false. congruence.
Qed.

Lemma terminates_dec e w g :
  (∃ t, e = EvTerminate t ∧ FiberActive w t = g)
  ∨ ¬ (∃ t, e = EvTerminate t ∧ FiberActive w t = g).
Proof.
  destruct e; try (right; intros (? & ? & ?); discriminate).
  destruct (decide (FiberActive w t = g)); [left; eauto|].
  right. intros (? & [= <-] & ?). done.
Qed.

Lemma join_blocked_step e w w' c g :
  wf_world w → step e w = Some w' → join_blocked w c g →
  (join_blocked w' c g ∧ is_waiting w c && negb (is_waiting w' c) = false)
  ∨ (join_woken w' c g ∧ is_waiting w c && negb (is_waiting w' c) = true
     ∧ ∃ t, e = EvTerminate t ∧ FiberActive w t = g).
Proof.
  intros Hwf Hstep Hb.
  pose proof Hb as (fc & fg & Hc & Hr & Hwt & Hg & Hrg).
  destruct (step_fcb_trans e w w' c fc Hwf Hstep Hc) as (fc' & Hc' & _ & _ & Htc).
  destruct (step_fcb_trans e w w' g fg Hwf Hstep Hg) as (fg' & Hg' & _ & _ & Htg).
  rewrite Hr, Hwt in Htc.
  assert (Hw : is_waiting w c = true) by (apply is_waiting_true; eauto).
  destruct (terminates_dec e w g) as [(t & -> & Ht)|Hnt].
  - right. subst g.
    destruct (Terminate_wakes t w w' c Hwf Hstep Hb) as (fc2 & Hc2 & Hr2 & Hw2).
    pose proof (Terminate_terminates t w w' Hstep) as Hterm.
    unfold run_state_of in Hterm. rewrite Hg' in Hterm. simpl in Hterm.
    injection Hterm as Hterm. split.
    + exists fc2, fg'. eauto 10.
    + split; [|eauto]. rewrite Hw. rewrite (is_waiting_false w' c fc2); auto.
      congruence.
  - left.
    assert (Hrc' : run_state fc' = Waiting ∧ wait_ fc' = UntilTerminated g).
    { inversion Htc; subst; auto. exfalso. apply Hnt. eauto. }
    destruct Hrc' as [Hr' Hwt']. split.
    + exists fc', fg'. repeat split; auto.
      intros Hterm. rewrite Hterm in Htg.
      inversion Htg; subst; try congruence. apply Hnt. eauto.
    + rewrite Hw. simpl. apply negb_false_iff. apply is_waiting_true. eauto.
Qed.

Lemma join_woken_step e w w' c g :
  wf_world w → step e w = Some w' → join_woken w c g →
  is_waiting w c && negb (is_waiting w' c) = false
  ∧ (join_woken w' c g
     ∨ (join_over w' c g
        ∧ ∃ t h, e = EvJoinResume t h ∧ FiberActive w t = c ∧ impl_ h = g)).
Proof.
  intros Hwf Hstep (fc & fg & Hc & Hr & Hwt & Hg & Hrg).
  destruct (step_fcb_trans e w w' c fc Hwf Hstep Hc) as (fc' & Hc' & _ & _ & Htc).
  destruct (step_fcb_trans e w w' g fg Hwf Hstep Hg) as (fg' & Hg' & _ & _ & Htg).
  rewrite Hwt in Htc. rewrite Hrg in Htg.
  assert (Hg'' : run_state fg' = Terminated) by (inversion Htg; subst; done).
  split.
  - rewrite (is_waiting_false w c fc); [done|done|]. destruct Hr; congruence.
  - destruct Hr as [Hr|Hr]; rewrite Hr in Htc; inversion Htc; subst;
      first [ left; exists fc', fg'; repeat split; auto; fail
            | right; split; [exists fc', fg'; repeat split; auto; congruence|]; eauto ].
Qed.

Lemma join_over_step e w w' c g :
  wf_world w → step e w = Some w' → join_over w c g → join_over w' c g.
Proof.
  intros Hwf Hstep (fc & fg & Hc & Hwt & Hg & Hrg).
  destruct (step_fcb_trans e w w' c fc Hwf Hstep Hc) as (fc' & Hc' & _ & _ & Htc).
  destruct (step_fcb_trans e w w' g fg Hwf Hstep Hg) as (fg' & Hg' & _ & _ & Htg).
  rewrite Hrg in Htg.
  assert (Hg'' : run_state fg' = Terminated) by (inversion Htg; subst; done).
  exists fc', fg'. repeat split; auto.
  inversion Htc; subst; try congruence.
  match goal with H : run_state_of _ _ ≠ _ |- _ => rename H into Hnt end.
  intros [= Heq]. apply Hnt. rewrite Heq. unfold run_state_of.
  rewrite Hg. simpl. by rewrite Hrg.
Qed.

(** ** A suspended Join, along a run *)

Lemma join_over_run es : ∀ w w' c g,
  wf_world w → run es w = Some w' → join_over w c g → join_over w' c g.
Proof.
  induction es as [|e es IH]; intros w w' c g Hwf Hrun Ho; simpl in Hrun.
  - by simplify_eq.
  - destruct (step e w) as [w1|] eqn:Hstep; [|done].
    eapply IH; [eapply wf_step; eauto|done|]. eapply join_over_step; eauto.
Qed.

Lemma join_woken_run es : ∀ w w' c g,
  wf_world w → run es w = Some w' → join_woken w c g →
  (join_woken w' c g ∧ wakes c es w = 0) ∨ join_over w' c g.
Proof.
  induction es as [|e es IH]; intros w w' c g Hwf Hrun Hw; simpl in Hrun.
  - simplify_eq. by left.
  - simpl. destruct (step e w) as [w1|] eqn:Hstep; [|done].
    pose proof (wf_step _ _ _ Hwf Hstep) as Hwf1.
    destruct (join_woken_step e w w1 c g Hwf Hstep Hw) as [Hk [Hw1|[Ho _]]].
    + rewrite Hk. simpl. by apply IH.
    + right. eapply join_over_run; eauto.
Qed.

Lemma join_blocked_run es : ∀ w w' c g,
  wf_world w → run es w = Some w' → join_blocked w c g →
  (join_blocked w' c g ∧ wakes c es w = 0)
  ∨ (join_woken w' c g ∧ wakes c es w = 1)
  ∨ join_over w' c g.
Proof.
  induction es as [|e es IH]; intros w w' c g Hwf Hrun Hb; simpl in Hrun.
  - simplify_eq. by left.
  - simpl. destruct (step e w) as [w1|] eqn:Hstep; [|done].
    pose proof (wf_step _ _ _ Hwf Hstep) as Hwf1.
    destruct (join_blocked_step e w w1 c g Hwf Hstep Hb)
      as [[Hb1 Hk]|(Hw1 & Hk & _)]; rewrite Hk; simpl.
    + by apply IH.
    + right. destruct (join_woken_run es w1 w' c g Hwf1 Hrun Hw1) as [[? ->]|?];
        auto.
Qed.

(** ** The two halves of Join *)

Lemma Join_returns_at_once w t this fg :
  can_call w t = true → IsJoinable this = true →
  heap w !! impl_ this = Some fg → join_state fg = Joinable →
  run_state fg = Terminated →
  Join this t w
  = Some (JoinReturned (store (impl_ this) (set_join_state Joined fg) w)
            Fiber_default).
Proof.
  intros Hcan Hj Hg Hjs Hr. apply can_call_inv in Hcan as (fc & Hc & _).
  unfold Join, Join_finish. rewrite Hj, Hg, Hc. simpl.
  rewrite !bool_decide_eq_true_2 by done. reflexivity.
Qed.

Lemma Join_suspends w t this fg :
  can_call w t = true → IsJoinable this = true →
  heap w !! impl_ this = Some fg → join_state fg = Joinable →
  run_state fg ≠ Terminated →
  ∃ fc, heap w !! FiberActive w t = Some fc ∧
    Join this t w
    = Some (JoinSuspended
              (activate t nullptr
                 (store (FiberActive w t)
                    (set_wait (UntilTerminated (impl_ this))
                       (set_run_state Waiting fc)) w))).
Proof.
  intros Hcan Hj Hg Hjs Hr. apply can_call_inv in Hcan as (fc & Hc & _).
  exists fc. split; [done|].
  unfold Join. rewrite Hj, Hg, Hc. simpl.
  rewrite bool_decide_eq_true_2 by done. simpl.
  by rewrite bool_decide_eq_false_2 by done.
Qed.

Lemma Join_resume_woken w t this :
  join_woken w (FiberActive w t) (impl_ this) →
  ∃ w', Join_resume this t w = Some (w', Fiber_default)
        ∧ join_state_of w' (impl_ this) = Some Joined
        ∧ wait_of w' (FiberActive w t) = Some NotWaiting
        ∧ run_state_of w' (FiberActive w t) = run_state_of w (FiberActive w t)
        ∧ FiberActive w' t = FiberActive w t.
Proof.
  intros (fc & fg & Hc & Hr & Hwt & Hg & Hrg).
  unfold Join_resume, Join_finish. rewrite Hc.
  rewrite bool_decide_eq_true_2 by done.
  unfold join_state_of, wait_of, run_state_of. rewrite heap_store.
  destruct (decide (FiberActive w t = impl_ this)) as [Heq|Hne].
  - rewrite <- Heq. rewrite lookup_insert_eq. eexists. split; [reflexivity|].
    rewrite heap_store, lookup_insert_eq, Hc. done.
  - rewrite lookup_insert_ne, Hg by done. eexists. split; [reflexivity|].
    rewrite !heap_store, lookup_insert_eq.
    rewrite lookup_insert_ne, lookup_insert_eq, Hc by done. done.
Qed.

Lemma wakes_snoc c e es : ∀ w w2 w3,
  run es w = Some w2 → step e w2 = Some w3 →
  wakes c (es ++ [e]) w
  = wakes c es w + (if is_waiting w2 c && negb (is_waiting w3 c) then 1 else 0).
Proof.
  induction es as [|e0 es IH]; intros w w2 w3 Hrun Hstep; simpl in *.
  - simplify_eq. rewrite Hstep. lia.
  - destruct (step e0 w) as [w1|]; [|done].
    rewrite (IH w1 w2 w3 Hrun Hstep). lia.
Qed.

Lemma wf_not_active_waiting w t c f :
  wf_world w → heap w !! c = Some f → run_state f = Waiting →
  FiberActive w t ≠ c.
Proof.
  intros Hwf Hc Hr Heq. subst c.
  pose proof (wf_actor_running w t f Hwf Hc). congruence.
Qed.

(** C1.  [Join] on a handle of a Joinable control block.  If the target
    has terminated, the call returns at once: the caller stays the active,
    Running fiber, the block is Joined and the handle is empty.  If it
    has not, the caller is suspended, and in every run from there: as long
    as the target has not terminated the caller stays Waiting, has not
    been woken and is active on no thread; the step that terminates the
    target makes it Runnable, its first wake-up; and whenever the caller
    is active again and still inside [Join], the target has terminated,
    the caller has been woken exactly once, and [Join] completes with the
    block Joined and the handle empty.  ([Join] is modelled from the
    spec.) *)
Theorem Join_waits_for_termination (w : World) (t : nat) (this : Fiber)
    (fg : FiberInterface) :
  wf_world w →
  can_call w t = true →
  IsJoinable this = true →
  heap w !! impl_ this = Some fg →
  join_state fg = Joinable →
  (run_state fg = Terminated →
   ∃ w' h', Join this t w = Some (JoinReturned w' h')
     ∧ FiberActive w' t = FiberActive w t
     ∧ run_state_of w' (FiberActive w t) = Some Running
     ∧ join_state_of w' (impl_ this) = Some Joined
     ∧ IsJoinable h' = false)
  ∧ (run_state fg ≠ Terminated →
     ∃ w1, Join this t w = Some (JoinSuspended w1)
       ∧ run_state_of w1 (FiberActive w t) = Some Waiting
       ∧ FiberActive w1 t = nullptr
       ∧ ∀ es w2, run es w1 = Some w2 →
           (run_state_of w2 (impl_ this) ≠ Some Terminated →
              run_state_of w2 (FiberActive w t) = Some Waiting
              ∧ wakes (FiberActive w t) es w1 = 0
              ∧ (∀ t', FiberActive w2 t' ≠ FiberActive w t)
              ∧ (∀ t' w3, FiberActive w2 t' = impl_ this →
                   step (EvTerminate t') w2 = Some w3 →
                   run_state_of w3 (impl_ this) = Some Terminated
                   ∧ run_state_of w3 (FiberActive w t) = Some Runnable
                   ∧ wakes (FiberActive w t) (es ++ [EvTerminate t']) w1 = 1))
           ∧ (∀ t', FiberActive w2 t' = FiberActive w t →
                wait_of w2 (FiberActive w t) = Some (UntilTerminated (impl_ this)) →
                run_state_of w2 (impl_ this) = Some Terminated
                ∧ wakes (FiberActive w t) es w1 = 1
                ∧ ∃ w3 h', Join_resume this t' w2 = Some (w3, h')
                    ∧ run_state_of w3 (FiberActive w t) = Some Running
                    ∧ join_state_of w3 (impl_ this) = Some Joined
                    ∧ IsJoinable h' = false)).
Proof.
  intros Hwf Hcan Hj Hg Hjs.
  pose proof Hcan as Hcan'. apply can_call_inv in Hcan' as (fc & Hc & Hwc).
  pose proof (wf_actor_running w t fc Hwf Hc) as Hrc.
  assert (Hcn : FiberActive w t ≠ nullptr) by (eapply wf_lookup_nonnull; eauto).
  split.
  - intros Hterm.
    eexists _, _. split; [by apply Join_returns_at_once|].
    assert (Hne : impl_ this ≠ FiberActive w t) by congruence.
    split; [apply FiberActive_store|].
    unfold run_state_of, join_state_of. rewrite heap_store.
    rewrite lookup_insert_ne, Hc, lookup_insert_eq by done. simpl.
    rewrite Hrc. done.
  - intros Hnterm.
    destruct (Join_suspends w t this fg Hcan Hj Hg Hjs Hnterm) as (fc0 & Hc0 & HJ).
    assert (fc0 = fc) as -> by congruence.
    eexists. split; [exact HJ|].
    set (fw := set_wait (UntilTerminated (impl_ this)) (set_run_state Waiting fc)).
    set (w1 := activate t nullptr (store (FiberActive w t) fw w)).
    assert (Hwf1 : wf_world w1) by (apply wf_suspend; eauto).
    assert (Hc1 : heap w1 !! FiberActive w t = Some fw).
    { unfold w1. by rewrite heap_activate, heap_store, lookup_insert_eq. }
    assert (Hb1 : join_blocked w1 (FiberActive w t) (impl_ this)).
    { destruct (decide (FiberActive w t = impl_ this)) as [Heq|Hne].
      - exists fw, fw. split; [done|]. split; [done|]. split; [done|].
        split; [by rewrite <- Heq|done].
      - exists fw, fg. repeat split; auto.
        unfold w1. by rewrite heap_activate, heap_store, lookup_insert_ne. }
    split; [unfold run_state_of; by rewrite Hc1|].
    split.
    { unfold w1. apply FiberActive_activate_same. rewrite threads_store.
      destruct (FiberActive_Some w t _ eq_refl Hcn) as (s & Hs & _). eauto. }
    intros es w2 Hrun.
    pose proof (wf_run es w1 w2 Hwf1 Hrun) as Hwf2.
    destruct (join_blocked_run es w1 w2 _ _ Hwf1 Hrun Hb1)
      as [[Hb2 Hk]|[[Hw2 Hk]|Ho2]].
    + (* still blocked *)
      pose proof Hb2 as (fc2 & fg2 & Hc2 & Hr2 & Hwt2 & Hg2 & Hrg2).
      split.
      * intros _. split; [unfold run_state_of; by rewrite Hc2; simpl; rewrite Hr2|].
        split; [done|]. split.
        { intros t'. eapply wf_not_active_waiting; eauto. }
        intros t' w3 Ha Hstep. split.
        { rewrite <- Ha. by eapply Terminate_terminates. }
        rewrite <- Ha in Hb2.
        destruct (Terminate_wakes t' w2 w3 _ Hwf2 Hstep Hb2) as (fc3 & Hc3 & Hr3 & _).
        split; [unfold run_state_of; by rewrite Hc3; simpl; rewrite Hr3|].
        rewrite (wakes_snoc _ _ _ w1 w2 w3 Hrun Hstep), Hk.
        rewrite (proj2 (is_waiting_true w2 (FiberActive w t))) by eauto.
        rewrite (is_waiting_false w3 _ fc3) by (auto; congruence). done.
      * intros t' Ha _. exfalso.
        exact (wf_not_active_waiting w2 t' _ fc2 Hwf2 Hc2 Hr2 Ha).
    + (* woken, still inside Join *)
      pose proof Hw2 as (fc2 & fg2 & Hc2 & Hr2 & Hwt2 & Hg2 & Hrg2).
      split.
      * intros Hnt. exfalso. apply Hnt. unfold run_state_of.
        by rewrite Hg2; simpl; rewrite Hrg2.
      * intros t' Ha _.
        split; [unfold run_state_of; by rewrite Hg2; simpl; rewrite Hrg2|].
        split; [done|].
        rewrite <- Ha in Hw2.
        destruct (Join_resume_woken w2 t' this Hw2) as (w3 & HR & HJ3 & _ & HR3 & _).
        exists w3, Fiber_default. split; [done|].
        rewrite Ha in HR3. split; [|done].
        rewrite HR3. unfold run_state_of. rewrite Hc2. simpl.
        rewrite <- Ha in Hc2. by rewrite (wf_actor_running w2 t' fc2 Hwf2 Hc2).
    + (* Join is over *)
      destruct Ho2 as (fc2 & fg2 & Hc2 & Hwt2 & Hg2 & Hrg2).
      split.
      * intros Hnt. exfalso. apply Hnt. unfold run_state_of.
        by rewrite Hg2; simpl; rewrite Hrg2.
      * intros t' _ Hwt. exfalso. unfold wait_of in Hwt. rewrite Hc2 in Hwt.
        simpl in Hwt. congruence.
Qed.

Lemma Join_waits_for_termination_witness :
  (∃ w' h', Join (mkFiber 16384) 0 example_world = Some (JoinReturned w' h')
     ∧ FiberActive w' 0 = FiberActive example_world 0
     ∧ run_state_of w' (FiberActive example_world 0) = Some Running
     ∧ join_state_of w' (impl_ (mkFiber 16384)) = Some Joined
     ∧ IsJoinable h' = false)
  ∧ (∃ w1, Join (mkFiber 12288) 0 example_world = Some (JoinSuspended w1)
       ∧ run_state_of w1 (FiberActive example_world 0) = Some Waiting
       ∧ FiberActive w1 0 = nullptr).
Proof.
  split.
  - apply (Join_waits_for_termination example_world 0 (mkFiber 16384)
             (example_fcb 256 Terminated));
      [apply example_world_wf | reflexivity..].
  - destruct (Join_waits_for_termination example_world 0 (mkFiber 12288)
                (example_fcb 256 Runnable)) as [_ H];
      [apply example_world_wf | reflexivity..|].
    destruct H as (w1 & HJ & Hr & Ha & _); [discriminate|].
    exists w1. auto.
Defined.

(** A run in which thread 0 joins the fiber at 12288: the joiner at 4096
    is suspended, the target runs, yields, runs again and terminates, and
    the joiner, woken once, completes the call. *)
Example Join_example_run :
  let h := mkFiber 12288 in
  let es := [EvJoin 0 h; EvSwitch 0 12288; EvYield 0; EvSwitch 0 12288;
             EvTerminate 0; EvSwitch 0 4096; EvJoinResume 0 h] in
  (w ← run es example_world;
   Some (run_state_of w 4096, join_state_of w 12288, run_state_of w 12288,
         wakes 4096 es example_world))
  = Some (Some Running, Some Joined, Some Terminated, 1)
  ∧ run [EvJoin 0 h; EvJoinResume 0 h] example_world = None
  ∧ run [EvJoin 0 h; EvSwitch 0 4096] example_world = None.
Proof. repeat split; vm_compute; reflexivity. Qed.

(** ** Sleeping *)

Lemma now_Enter t w : now (EnterFiberAtomicSection t w) = now w.
Proof. unfold EnterFiberAtomicSection. by destruct (threads w !! t). Qed.

Lemma now_Leave t w : now (LeaveFiberAtomicSection t w) = now w.
Proof. unfold LeaveFiberAtomicSection. by destruct (threads w !! t). Qed.

Lemma resource_Enter t w :
  default_stack_resource (EnterFiberAtomicSection t w) = default_stack_resource w.
Proof. unfold EnterFiberAtomicSection. by destruct (threads w !! t). Qed.

Lemma resource_Leave t w :
  default_stack_resource (LeaveFiberAtomicSection t w) = default_stack_resource w.
Proof. unfold LeaveFiberAtomicSection. by destruct (threads w !! t). Qed.

(** The steady clock never goes back. *)
Lemma step_now_mono e w w' : step e w = Some w' → (now w ≤ now w')%Z.
Proof.
  intros H. destruct e; simpl in H; unfold_ops;
    repeat case_match; simpl in H; simplify_eq;
    rewrite ?now_activate, ?now_Enter, ?now_Leave; simpl;
    rewrite ?now_activate; simpl; lia.
Qed.

Lemma run_now_mono es : ∀ w w', run es w = Some w' → (now w ≤ now w')%Z.
Proof.
  induction es as [|e es IH]; intros w w' H; simpl in H.
  - simplify_eq. lia.
  - destruct (step e w) as [w1|] eqn:Hs; [|done].
    apply step_now_mono in Hs. apply IH in H. lia.
Qed.

(** No step touches the process-wide stack resource. *)
Lemma step_resource e w w' :
  step e w = Some w' → default_stack_resource w' = default_stack_resource w.
Proof.
  intros H. destruct e; simpl in H; unfold_ops;
    repeat case_match; simpl in H; simplify_eq;
    rewrite ?resource_activate, ?resource_Enter, ?resource_Leave; simpl;
    rewrite ?resource_activate; reflexivity.
Qed.

Lemma run_resource es : ∀ w w',
  run es w = Some w' → default_stack_resource w' = default_stack_resource w.
Proof.
  induction es as [|e es IH]; intros w w' H; simpl in H.
  - by simplify_eq.
  - destruct (step e w) as [w1|] eqn:Hs; [|done].
    apply step_resource in Hs. apply IH in H. congruence.
Qed.

Lemma asleep_step e w w' c tp :
  wf_world w → step e w = Some w' → asleep w c tp →
  (asleep w' c tp ∧ is_waiting w c && negb (is_waiting w' c) = false)
  ∨ ((tp ≤ now w)%Z ∧ e = EvTimerWake c ∧ run_state_of w' c = Some Runnable).
Proof.
  intros Hwf Hstep (fc & Hc & Hr & Hwt).
  destruct (step_fcb_trans e w w' c fc Hwf Hstep Hc) as (fc' & Hc' & _ & _ & Htc).
  rewrite Hr, Hwt in Htc. inversion Htc; subst.
  - left. split; [by exists fc'|].
    rewrite (proj2 (is_waiting_true w c)) by eauto.
    rewrite (proj2 (is_waiting_true w' c)) by eauto. done.
  - right. split; [done|]. split; [done|]. unfold run_state_of.
    rewrite Hc'. simpl. congruence.
Qed.

Lemma asleep_run es : ∀ w w' c tp,
  wf_world w → run es w = Some w' → asleep w c tp →
  (asleep w' c tp ∧ wakes c es w = 0) ∨ (tp ≤ now w')%Z.
Proof.
  induction es as [|e es IH]; intros w w' c tp Hwf Hrun Ha; simpl in Hrun.
  - simplify_eq. by left.
  - simpl. destruct (step e w) as [w1|] eqn:Hstep; [|done].
    pose proof (wf_step _ _ _ Hwf Hstep) as Hwf1.
    destruct (asleep_step e w w1 c tp Hwf Hstep Ha) as [[Ha1 Hk]|(Hle & _ & _)].
    + rewrite Hk. simpl. by apply IH.
    + right. apply step_now_mono in Hstep. apply run_now_mono in Hrun. lia.
Qed.

Lemma wrap_int64_in_range z : in_time_point_range z → wrap_int64 z = z.
Proof.
  unfold in_time_point_range, wrap_int64. intros H.
  rewrite Z.mod_small by lia. lia.
Qed.

Lemma wrap_int64_range z : in_time_point_range (wrap_int64 z).
Proof.
  unfold in_time_point_range, wrap_int64.
  pose proof (Z.mod_pos_bound (z + 2 ^ 63) (2 ^ 64)). lia.
Qed.

Lemma SleepUntil_deadline tp tp' t w :
  is_Some (heap w !! FiberActive w t) →
  ThisFiber.SleepUntil tp t w = ThisFiber.SleepUntil tp' t w → tp = tp'.
Proof.
  intros [f Hf]. unfold ThisFiber.SleepUntil, WaitUntil. rewrite Hf.
  intros [= H]. apply (f_equal (λ x, wait_ <$> heap x !! FiberActive w t)) in H.
  rewrite !heap_activate, !heap_store, !lookup_insert_eq in H. simpl in H.
  congruence.
Qed.

(** C3.  [SleepFor(d)] is [SleepUntil(steady_clock::now() + d)], the sum
    being the one of the 64-bit time point: the two calls give the same
    world, and [SleepUntil(tp)] does what [SleepFor(d)] does exactly for
    that [tp].  The active fiber goes from Running to Waiting with that
    wake deadline, and in every run from there it has left Waiting only if
    the clock has reached the deadline; until then it has not been woken.
    When [now + d] is in the range of the time point the deadline is
    [now + d] itself.  ([WaitUntil] and the scheduler are modelled from the
    spec.) *)
Theorem SleepFor_is_SleepUntil (w : World) (t : nat) (d : Z) :
  wf_world w →
  FiberActive w t ≠ nullptr →
  ThisFiber.SleepFor d t w
  = ThisFiber.SleepUntil (time_point_add (now w) d) t w
  ∧ (∀ tp, ThisFiber.SleepUntil tp t w = ThisFiber.SleepFor d t w
           ↔ tp = time_point_add (now w) d)
  ∧ in_time_point_range (time_point_add (now w) d)
  ∧ (in_time_point_range (now w + d) →
     time_point_add (now w) d = (now w + d)%Z
     ∧ ThisFiber.SleepFor d t w = ThisFiber.SleepUntil (now w + d) t w)
  ∧ ∃ w1, ThisFiber.SleepFor d t w = Some w1
      ∧ run_state_of w (FiberActive w t) = Some Running
      ∧ run_state_of w1 (FiberActive w t) = Some Waiting
      ∧ wait_of w1 (FiberActive w t)
        = Some (UntilDeadline (time_point_add (now w) d))
      ∧ ∀ es w2, run es w1 = Some w2 →
          (run_state_of w2 (FiberActive w t) ≠ Some Waiting →
           (time_point_add (now w) d ≤ now w2)%Z)
          ∧ ((now w2 < time_point_add (now w) d)%Z →
             run_state_of w2 (FiberActive w t) = Some Waiting
             ∧ wakes (FiberActive w t) es w1 = 0).
Proof.
  intros Hwf Hact.
  destruct (wf_FiberActive w t Hwf Hact) as (fc & s & Hc & Hr & Hs & _).
  split; [reflexivity|]. split.
  { intros tp. split; [|by intros ->].
    apply SleepUntil_deadline. eauto. }
  split; [apply wrap_int64_range|]. split.
  { intros Hin. unfold ThisFiber.SleepFor, time_point_add.
    by rewrite wrap_int64_in_range. }
  unfold ThisFiber.SleepFor, ThisFiber.SleepUntil, WaitUntil. rewrite Hc.
  eexists. split; [reflexivity|].
  set (tp := time_point_add (now w) d).
  set (fw := set_wait (UntilDeadline tp) (set_run_state Waiting fc)).
  set (w1 := activate t nullptr (store (FiberActive w t) fw w)).
  assert (Hwf1 : wf_world w1) by (apply wf_suspend; eauto).
  assert (Hc1 : heap w1 !! FiberActive w t = Some fw).
  { unfold w1. by rewrite heap_activate, heap_store, lookup_insert_eq. }
  assert (Ha1 : asleep w1 (FiberActive w t) tp) by (by exists fw).
  unfold run_state_of, wait_of. rewrite Hc, Hc1. simpl. rewrite Hr.
  repeat (split; [done|]).
  intros es w2 Hrun.
  destruct (asleep_run es w1 w2 _ _ Hwf1 Hrun Ha1)
    as [[(f2 & Hf2 & Hr2 & _) Hk]|Hle].
  - rewrite Hf2. simpl. rewrite Hr2. split; [done|]. auto.
  - split; [done|]. lia.
Qed.

Lemma SleepFor_is_SleepUntil_witness :
  ThisFiber.SleepFor 50 0 example_world
  = ThisFiber.SleepUntil (time_point_add (now example_world) 50) 0 example_world
  ∧ (∀ tp, ThisFiber.SleepUntil tp 0 example_world
           = ThisFiber.SleepFor 50 0 example_world
           ↔ tp = time_point_add (now example_world) 50)
  ∧ in_time_point_range (time_point_add (now example_world) 50)
  ∧ (in_time_point_range (now example_world + 50) →
     time_point_add (now example_world) 50 = (now example_world + 50)%Z
     ∧ ThisFiber.SleepFor 50 0 example_world
       = ThisFiber.SleepUntil (now example_world + 50) 0 example_world)
  ∧ ∃ w1, ThisFiber.SleepFor 50 0 example_world = Some w1
      ∧ run_state_of example_world (FiberActive example_world 0) = Some Running
      ∧ run_state_of w1 (FiberActive example_world 0) = Some Waiting
      ∧ wait_of w1 (FiberActive example_world 0)
        = Some (UntilDeadline (time_point_add (now example_world) 50))
      ∧ ∀ es w2, run es w1 = Some w2 →
          (run_state_of w2 (FiberActive example_world 0) ≠ Some Waiting →
           (time_point_add (now example_world) 50 ≤ now w2)%Z)
          ∧ ((now w2 < time_point_add (now example_world) 50)%Z →
             run_state_of w2 (FiberActive example_world 0) = Some Waiting
             ∧ wakes (FiberActive example_world 0) es w1 = 0).
Proof.
  apply (SleepFor_is_SleepUntil example_world 0 50);
    [apply example_world_wf | vm_compute; discriminate].
Defined.

(** The fiber at 4096 sleeps for 50 ticks at time 1000: the timer cannot
    wake it at 1049, and wakes it at 1050.  With the largest 64-bit
    duration the sum wraps to a time point in the past, and the timer may
    wake the fiber at once. *)
Example SleepFor_example_run :
  run [EvSleepFor 0 50; EvTick 49; EvTimerWake 4096] example_world = None
  ∧ (w ← run [EvSleepFor 0 50; EvTick 49] example_world;
     Some (run_state_of w 4096, wait_of w 4096))
    = Some (Some Waiting, Some (UntilDeadline 1050))
  ∧ (w ← run [EvSleepFor 0 50; EvTick 50; EvTimerWake 4096] example_world;
     Some (run_state_of w 4096, now w))
    = Some (Some Runnable, 1050%Z)
  ∧ (w ← ThisFiber.SleepFor (2 ^ 63 - 1) 0 example_world;
     Some (wait_of w 4096))
    = Some (Some (UntilDeadline (-9223372036854774809)))
  ∧ (w ← run [EvSleepFor 0 (2 ^ 63 - 1); EvTimerWake 4096] example_world;
     Some (run_state_of w 4096, now w))
    = Some (Some Runnable, 1000%Z).
Proof. repeat split; vm_compute; reflexivity. Qed.

(** ** Allocation *)

Lemma run_alloc es : ∀ w w' q,
  wf_world w → run es w = Some w' →
  is_Some (heap w !! q) → is_Some (heap w' !! q).
Proof.
  induction es as [|e es IH]; intros w w' q Hwf Hrun [f Hq]; simpl in Hrun.
  - simplify_eq. eauto.
  - destruct (step e w) as [w1|] eqn:Hstep; [|done].
    destruct (step_fcb_trans e w w1 q f Hwf Hstep Hq) as (f' & Hq' & _).
    apply (IH w1 w' q); [by eapply wf_step|done|eauto].
Qed.

(** C5.  [IsJoinable] is true iff the handle holds a live reference,
    whatever the run state of the target: it stays true when the target
    terminates and along every run of the process, and it is false on
    the handle left by a completed [Join], by [Detach] and by a move.
    ([Join], [Detach] and move assignment are modelled from the spec.) *)
Theorem IsJoinable_iff_live_reference (w : World) (this : Fiber) :
  wf_world w →
  handle_ok w this →
  (IsJoinable this = true ↔ holds_live w this)
  ∧ (∀ f r, heap w !! impl_ this = Some f →
       IsJoinable this = true
       ∧ holds_live (store (impl_ this) (set_run_state r f) w) this)
  ∧ (∀ t w', FiberActive w t = impl_ this →
       step (EvTerminate t) w = Some w' →
       run_state_of w' (impl_ this) = Some Terminated
       ∧ IsJoinable this = true ∧ holds_live w' this)
  ∧ (∀ es w', run es w = Some w' →
       (IsJoinable this = true ↔ holds_live w' this))
  ∧ (∀ t w' h', Join this t w = Some (JoinReturned w' h') →
       IsJoinable h' = false)
  ∧ (∀ t w' h', Join_resume this t w = Some (w', h') → IsJoinable h' = false)
  ∧ (∀ w' h', Detach this w = Some (w', h') → IsJoinable h' = false)
  ∧ IsJoinable (snd (Fiber_move this)) = false
  ∧ (∀ dst, IsJoinable (snd (Fiber_move_assign dst this)) = false).
Proof.
  intros Hwf Hok.
  assert (Hiff : ∀ w', (is_Some (heap w !! impl_ this) → is_Some (heap w' !! impl_ this)) →
                       (IsJoinable this = true ↔ holds_live w' this)).
  { intros w' Hmono. rewrite IsJoinable_true. unfold holds_live. split.
    - intros Hn. split; [done|]. destruct Hok as [?|Hs]; [done|]. auto.
    - by intros [Hn _]. }
  split; [by apply Hiff|]. split.
  { intros f r Hf.
    assert (Hn : impl_ this ≠ nullptr) by (eapply wf_lookup_nonnull; eauto).
    split; [by apply IsJoinable_true|]. split; [done|].
    rewrite heap_store, lookup_insert_eq. eauto. }
  split.
  { intros t w' Ha Hstep. split.
    - rewrite <- Ha. by eapply Terminate_terminates.
    - assert (Hal : is_Some (heap w' !! impl_ this)).
      { apply (run_alloc [EvTerminate t] w w' _ Hwf);
          [cbn [run]; by rewrite Hstep|].
        rewrite <- Ha. simpl in Hstep.
        destruct (can_call w t) eqn:Hcan; [|done].
        apply can_call_inv in Hcan as (fa & Hfa & _). eauto. }
      destruct Hok as [Hnull|Hs].
      + exfalso. destruct Hal as [f' Hf']. rewrite Hnull in Hf'.
        pose proof (wf_step _ _ _ Hwf Hstep) as Hwf'.
        rewrite (wf_null w' Hwf') in Hf'. done.
      + assert (Hj : IsJoinable this = true).
        { apply IsJoinable_true. destruct Hs as [f Hf].
          eapply wf_lookup_nonnull; eauto. }
        split; [done|]. apply (Hiff w'); auto. }
  split.
  { intros es w' Hrun. apply Hiff. by apply (run_alloc es w w'). }
  split.
  { intros t w' h' HJ. unfold Join in HJ.
    repeat case_match; simplify_eq; reflexivity. }
  split.
  { intros t w' h' HJ. unfold Join_resume in HJ.
    repeat case_match; simplify_eq; reflexivity. }
  split.
  { intros w' h' HD. unfold Detach in HD.
    repeat case_match; simplify_eq; reflexivity. }
  split; reflexivity.
Qed.

Lemma IsJoinable_iff_live_reference_witness :
  IsJoinable (mkFiber 16384) = true ↔ holds_live example_world (mkFiber 16384).
Proof.
  apply (IsJoinable_iff_live_reference example_world (mkFiber 16384)).
  - apply example_world_wf.
  - right. vm_compute. eauto.
Defined.

(** ** The stack of a new fiber *)

Lemma Fiber_opts_total opts t p w :
  is_Some (threads w !! t) → p ≠ nullptr → heap w !! p = None →
  ∃ w', Fiber_opts opts t p w = Some (w', {| impl_ := p |}).
Proof.
  intros [s Hs] Hpn Hp. unfold Fiber_opts, MakeWorkerFiberImpl.
  rewrite Hs. apply N.eqb_neq in Hpn. rewrite Hpn, Hp.
  unfold Start. rewrite (heap_store p), lookup_insert_eq.
  destruct (launch opts); eauto.
Qed.

Lemma Fiber_opts_stack opts t p w w' h :
  Fiber_opts opts t p w = Some (w', h) →
  stack_of w' (impl_ h) = Some (allocate (opts_stack_alloc opts w)).
Proof.
  intros H. apply Fiber_opts_inv in H as (s & Hs & Hpn & Hp & -> & Hw').
  simpl in *. unfold stack_of. subst w'.
  destruct (launch opts).
  - by rewrite heap_activate, heap_store, lookup_insert_eq.
  - by rewrite heap_store, lookup_insert_eq.
Qed.

(** C7.  The options-based constructor, given a free address for the
    control block, builds a fiber whose stack has [opts.stack_size]
    bytes.  The stack comes from the installed resource if there is one
    (in particular in every world reached after
    [SetDefaultStackResource] installed a resource), and from the
    platform default allocator if none was installed.
    ([SetDefaultStackResource] and the allocators are modelled from the
    spec.) *)
Theorem Fiber_opts_stack_size_honoured (w : World) (opts : Opts) (t : nat)
    (p : N) :
  is_Some (threads w !! t) →
  p ≠ nullptr →
  heap w !! p = None →
  ∃ w' h, Fiber_opts opts t p w = Some (w', h) ∧ impl_ h = p
    ∧ region_size <$> stack_of w' p = Some (stack_size opts)
    ∧ (default_stack_resource w ≠ nullptr →
       stack_of w' p
       = Some {| region_size := stack_size opts;
                 region_source := FromResource (default_stack_resource w) |})
    ∧ (default_stack_resource w = nullptr →
       stack_of w' p
       = Some {| region_size := stack_size opts;
                 region_source := PlatformDefault |})
    ∧ (∀ mr sz w0 w1 es, mr ≠ nullptr →
         SetDefaultStackResource mr sz w0 = Some w1 → run es w1 = Some w →
         stack_of w' p
         = Some {| region_size := stack_size opts;
                   region_source := FromResource mr |}).
Proof.
  intros Ht Hpn Hp.
  destruct (Fiber_opts_total opts t p w Ht Hpn Hp) as (w' & HF).
  exists w', {| impl_ := p |}. split; [done|]. split; [done|].
  pose proof (Fiber_opts_stack _ _ _ _ _ _ HF) as Hst. simpl in Hst.
  rewrite Hst. unfold opts_stack_alloc.
  assert (Hres : default_stack_resource w ≠ nullptr →
                 Some (allocate
                         (if negb (default_stack_resource w =? nullptr)%N
                          then FixedStackAllocator (default_stack_resource w)
                                 (stack_size opts)
                          else fixedsize_stack (stack_size opts)))
                 = Some {| region_size := stack_size opts;
                           region_source := FromResource (default_stack_resource w) |}).
  { intros Hn. apply N.eqb_neq in Hn. by rewrite Hn. }
  split; [|split; [done|split]].
  - by destruct (default_stack_resource w =? nullptr)%N.
  - intros Hn. apply N.eqb_eq in Hn. by rewrite Hn.
  - intros mr sz w0 w1 es Hmr Hset Hrun.
    apply run_resource in Hrun. unfold SetDefaultStackResource in Hset.
    destruct (default_stack_resource w0 =? nullptr)%N; [|done].
    simplify_eq. simpl in Hrun. rewrite <- Hrun. apply Hres. by rewrite Hrun.
Qed.

Lemma Fiber_opts_stack_size_honoured_witness :
  ∃ w' h, Fiber_opts default_Opts 0 20480 example_world = Some (w', h)
    ∧ impl_ h = 20480%N
    ∧ region_size <$> stack_of w' 20480 = Some (stack_size default_Opts)
    ∧ (default_stack_resource example_world = nullptr →
       stack_of w' 20480
       = Some {| region_size := stack_size default_Opts;
                 region_source := PlatformDefault |}).
Proof.
  destruct (Fiber_opts_stack_size_honoured example_world default_Opts 0 20480)
    as (w' & h & HF & Hh & Hsz & _ & Hdef & _).
  - vm_compute. eauto.
  - discriminate.
  - reflexivity.
  - exists w', h. auto.
Defined.

(** After a resource is installed at 28672, a fiber with a 4096-byte
    stack gets it from that resource; a second installation fails. *)
Example SetDefaultStackResource_example :
  (w1 ← SetDefaultStackResource 28672 131072 example_world;
   '(w2, h) ← Fiber_opts (mkOpts dispatch HIGH EmptyString 4096) 0 20480 w1;
   Some (stack_of w2 (impl_ h), SetDefaultStackResource 28672 131072 w2))
  = Some (Some {| region_size := 4096; region_source := FromResource 28672 |},
          None).
Proof. vm_compute. reflexivity. Qed.

(** ** Atomic sections *)

Lemma atomic_depth_ctor t w :
  is_Some (threads w !! t) →
  atomic_depth (FiberAtomicGuard_ctor t w) t = (atomic_depth w t + 1)%Z
  ∧ is_Some (threads (FiberAtomicGuard_ctor t w) !! t).
Proof.
  intros [s Hs].
  unfold FiberAtomicGuard_ctor, EnterFiberAtomicSection, atomic_depth.
  rewrite Hs. simpl. rewrite lookup_insert_eq. eauto.
Qed.

Lemma atomic_depth_dtor t w :
  is_Some (threads w !! t) →
  atomic_depth (FiberAtomicGuard_dtor t w) t = (atomic_depth w t - 1)%Z
  ∧ is_Some (threads (FiberAtomicGuard_dtor t w) !! t).
Proof.
  intros [s Hs].
  unfold FiberAtomicGuard_dtor, LeaveFiberAtomicSection, atomic_depth.
  rewrite Hs. simpl. rewrite lookup_insert_eq. eauto.
Qed.

Lemma guard_run_cons t o ops w :
  guard_run t (o :: ops) w = guard_run t ops (guard_step t w o).
Proof. reflexivity. Qed.

Lemma atomic_depth_constructs t (l : list nat) : ∀ w,
  is_Some (threads w !! t) →
  atomic_depth (guard_run t (Construct <$> l) w) t
  = (atomic_depth w t + Z.of_nat (length l))%Z
  ∧ is_Some (threads (guard_run t (Construct <$> l) w) !! t).
Proof.
  induction l as [|g l IH]; intros w Ht.
  - split; [cbn; lia|done].
  - rewrite fmap_cons, guard_run_cons. cbn [guard_step length].
    destruct (atomic_depth_ctor t w Ht) as [Hd Ht1].
    destruct (IH _ Ht1) as [Hd2 Ht2]. split; [|done].
    rewrite Hd2, Hd. lia.
Qed.

Lemma atomic_depth_destroys t (l : list nat) : ∀ w,
  is_Some (threads w !! t) →
  atomic_depth (guard_run t (Destroy <$> l) w) t
  = (atomic_depth w t - Z.of_nat (length l))%Z
  ∧ is_Some (threads (guard_run t (Destroy <$> l) w) !! t).
Proof.
  induction l as [|g l IH]; intros w Ht.
  - split; [cbn; lia|done].
  - rewrite fmap_cons, guard_run_cons. cbn [guard_step length].
    destruct (atomic_depth_dtor t w Ht) as [Hd Ht1].
    destruct (IH _ Ht1) as [Hd2 Ht2]. split; [|done].
    rewrite Hd2, Hd. lia.
Qed.

Lemma guard_run_app t ops1 ops2 w :
  guard_run t (ops1 ++ ops2) w = guard_run t ops2 (guard_run t ops1 w).
Proof. unfold guard_run. apply foldl_app. Qed.

Lemma atomic_depth_nested t n k w :
  is_Some (threads w !! t) → k ≤ n →
  atomic_depth (guard_run t (construct_nested n ++ take k (destroy_nested n)) w) t
  = (atomic_depth w t + Z.of_nat n - Z.of_nat k)%Z.
Proof.
  intros Ht Hk. rewrite guard_run_app.
  unfold construct_nested, destroy_nested. rewrite <- fmap_take.
  destruct (atomic_depth_constructs t (seq 1 n) w Ht) as [Hc Ht1].
  destruct (atomic_depth_destroys t (take k (reverse (seq 1 n))) _ Ht1) as [Hd _].
  rewrite Hd, Hc, length_take, length_reverse, !length_seq. lia.
Qed.

(** C4.  Every [FiberAtomicGuard] constructed raises the depth counter of
    the thread by one and every one destroyed lowers it by one; with [n]
    nested guards the depth is the original one plus the number of guards
    alive, and once all are destroyed, in reverse order, it is the
    original one again: a thread that was preemptible is preemptible
    again, and was not while a guard was alive.  (The two section
    functions are modelled from the spec.) *)
Theorem nested_guards_restore_depth (n : nat) (t : nat) (w : World) :
  is_Some (threads w !! t) →
  (atomic_depth (FiberAtomicGuard_ctor t w) t = (atomic_depth w t + 1)%Z
   ∧ atomic_depth (FiberAtomicGuard_dtor t w) t = (atomic_depth w t - 1)%Z)
  ∧ (∀ k, k ≤ n →
       atomic_depth (guard_run t (take k (construct_nested n)) w) t
       = (atomic_depth w t + Z.of_nat k)%Z)
  ∧ (∀ k, k ≤ n →
       atomic_depth
         (guard_run t (construct_nested n ++ take k (destroy_nested n)) w) t
       = (atomic_depth w t + Z.of_nat n - Z.of_nat k)%Z)
  ∧ atomic_depth (guard_run t (construct_nested n ++ destroy_nested n) w) t
    = atomic_depth w t
  ∧ (preemptible w t = true →
     preemptible (guard_run t (construct_nested n ++ destroy_nested n) w) t
     = true
     ∧ ∀ k, k < n →
         preemptible
           (guard_run t (construct_nested n ++ take k (destroy_nested n)) w) t
         = false).
Proof.
  intros Ht.
  assert (Hall : atomic_depth
                   (guard_run t (construct_nested n ++ destroy_nested n) w) t
                 = atomic_depth w t).
  { pose proof (atomic_depth_nested t n n w Ht (le_n n)) as H.
    unfold destroy_nested in H. rewrite <- fmap_take in H.
    rewrite take_ge in H by (rewrite length_reverse, length_seq; lia).
    unfold destroy_nested. rewrite H. lia. }
  split; [split; [apply atomic_depth_ctor | apply atomic_depth_dtor]; done|].
  split.
  { intros k Hk. unfold construct_nested. rewrite <- fmap_take.
    destruct (atomic_depth_constructs t (take k (seq 1 n)) w Ht) as [-> _].
    rewrite length_take, length_seq. lia. }
  split; [intros k Hk; by apply atomic_depth_nested|].
  split; [done|].
  unfold preemptible. intros Hp. apply Z.eqb_eq in Hp. split.
  - apply Z.eqb_eq. congruence.
  - intros k Hk. apply Z.eqb_neq.
    rewrite atomic_depth_nested by (auto; lia). lia.
Qed.

Lemma nested_guards_restore_depth_witness :
  atomic_depth
    (guard_run 0 (construct_nested 3 ++ destroy_nested 3) example_world) 0
  = atomic_depth example_world 0.
Proof.
  apply (nested_guards_restore_depth 3 0 example_world).
  vm_compute. eauto.
Defined.

Example nested_guards_example :
  (λ ops, atomic_depth (guard_run 0 ops example_world) 0)
    <$> [ [Construct 1]; [Construct 1; Construct 2];
          [Construct 1; Construct 2; Construct 3];
          [Construct 1; Construct 2; Construct 3; Destroy 3];
          construct_nested 3 ++ destroy_nested 3 ]
  = [1; 2; 3; 2; 0]%Z
  ∧ destroy_nested 3 = [Destroy 3; Destroy 2; Destroy 1].
Proof. split; vm_compute; reflexivity. Qed.

(** ** The scoped callback *)

Lemma SetPrintStacktraceCb_stores cb p w :
  is_Some (heap w !! p) →
  ∃ w', SetPrintStacktraceCb cb p w = Some w' ∧ cb_of w' p = Some cb
        ∧ threads w' = threads w.
Proof.
  intros [f Hf]. unfold SetPrintStacktraceCb. rewrite Hf.
  eexists. split; [reflexivity|]. split; [|reflexivity].
  unfold cb_of. by rewrite heap_store, lookup_insert_eq.
Qed.

(** C9.  The constructor of a [PrintLocalsCallback] guard stores the
    callback in the control block of the active fiber.  The destructor,
    run by that fiber, leaves the block without a callback; and a block
    whose first declaration is the guard ends, whichever way it is left
    (falling through, early return, failure), with the destructor run and
    the control block holding no callback.
    ([SetPrintStacktraceCb] is modelled from the spec.) *)
Theorem PrintLocalsCallback_scope_clears (fn : PrintFn)
    (body : World → option (ScopeExit * World)) (t : nat) (w : World) :
  is_Some (heap w !! FiberActive w t) →
  ∃ w1, ThisFiber.PrintLocalsCallback_ctor fn t w = Some w1
    ∧ cb_of w1 (FiberActive w t) = Some (Some fn)
    ∧ FiberActive w1 t = FiberActive w t
    ∧ (∀ w2, FiberActive w2 t = FiberActive w t →
         is_Some (heap w2 !! FiberActive w t) →
         ∃ w3, ThisFiber.PrintLocalsCallback_dtor t w2 = Some w3
           ∧ cb_of w3 (FiberActive w t) = Some None)
    ∧ (∀ e w2, body w1 = Some (e, w2) →
         FiberActive w2 t = FiberActive w t →
         is_Some (heap w2 !! FiberActive w t) →
         ∃ w3, PrintLocalsCallback_scope fn body t w = Some (e, w3)
           ∧ cb_of w3 (FiberActive w t) = Some None).
Proof.
  intros Hact.
  destruct (SetPrintStacktraceCb_stores (Some fn) _ w Hact) as (w1 & Hc & Hcb & Hth).
  exists w1. split; [exact Hc|]. split; [exact Hcb|].
  split; [unfold FiberActive; by rewrite Hth|].
  assert (Hd : ∀ w2, FiberActive w2 t = FiberActive w t →
                 is_Some (heap w2 !! FiberActive w t) →
                 ∃ w3, ThisFiber.PrintLocalsCallback_dtor t w2 = Some w3
                   ∧ cb_of w3 (FiberActive w t) = Some None).
  { intros w2 Ha Hal. unfold ThisFiber.PrintLocalsCallback_dtor. rewrite Ha.
    destruct (SetPrintStacktraceCb_stores None _ w2 Hal) as (w3 & H3 & Hcb3 & _).
    eauto. }
  split; [exact Hd|].
  intros e w2 Hb Ha Hal. destruct (Hd w2 Ha Hal) as (w3 & H3 & Hcb3).
  exists w3. split; [|done].
  unfold PrintLocalsCallback_scope.
  unfold ThisFiber.PrintLocalsCallback_ctor in Hc |- *. rewrite Hc, Hb, H3. done.
Qed.

Lemma PrintLocalsCallback_scope_clears_witness :
  ∃ w1, ThisFiber.PrintLocalsCallback_ctor example_callback 0 example_world
        = Some w1
    ∧ cb_of w1 (FiberActive example_world 0) = Some (Some example_callback).
Proof.
  destruct (PrintLocalsCallback_scope_clears example_callback
              (λ w, Some (EarlyReturn, w)) 0 example_world)
    as (w1 & Hc & Hcb & _).
  - vm_compute. eauto.
  - exists w1. auto.
Defined.

(** The guarded block yields to the fiber at 12288, is resumed, and is
    then left early, or by a failure: no callback is left either way;
    inside the block the callback is the one installed. *)
Example PrintLocalsCallback_example :
  let body (e : ScopeExit) (w : World) :=
    w' ← run [EvYield 0; EvSwitch 0 12288; EvYield 0; EvSwitch 0 4096] w;
    Some (e, w') in
  let shown (w : World) := fmap (M := option) (λ f, f tt) <$> cb_of w 4096 in
  (λ e, '(e', w3) ← PrintLocalsCallback_scope example_callback (body e) 0
                      example_world;
        Some (e', shown w3))
    <$> [FallThrough; EarlyReturn; Thrown]
  = [Some (FallThrough, Some None); Some (EarlyReturn, Some None);
     Some (Thrown, Some None)]
  ∧ (w1 ← ThisFiber.PrintLocalsCallback_ctor example_callback 0 example_world;
     '(_, w2) ← body FallThrough w1;
     Some (shown w2))
    = Some (Some (Some "locals"%string)).
Proof. split; vm_compute; reflexivity. Qed.

(** * Further properties of the header *)

(** ** Handles: swap, move construction and the references held *)

Lemma Fiber_eta (h : Fiber) : {| impl_ := impl_ h |} = h.
Proof. by destruct h. Qed.

Lemma swap_at_Some i j hs hs' :
  swap_at i j hs = Some hs' →
  ∃ a b, hs !! i = Some a ∧ hs !! j = Some b ∧ hs' = <[j := a]> (<[i := b]> hs).
Proof.
  unfold swap_at. destruct (hs !! i) as [a|] eqn:Hi; [|done].
  destruct (hs !! j) as [b|] eqn:Hj; [|done].
  intros [= <-]. exists a, b. simpl. by rewrite !Fiber_eta.
Qed.

(** X1.  [swap] on two handle objects exchanges what they hold and leaves
    every other handle alone; swapping a handle with itself changes
    nothing; and a second swap of the same two undoes the first. *)
Theorem swap_at_exchanges (i j : nat) (hs hs' : list Fiber) :
  swap_at i j hs = Some hs' →
  hs' !! i = hs !! j
  ∧ hs' !! j = hs !! i
  ∧ (∀ k, k ≠ i → k ≠ j → hs' !! k = hs !! k)
  ∧ length hs' = length hs
  ∧ (i = j → hs' = hs)
  ∧ swap_at i j hs' = Some hs.
Proof.
  intros H. apply swap_at_Some in H as (a & b & Hi & Hj & ->).
  pose proof (lookup_lt_Some _ _ _ Hi) as Hli.
  pose proof (lookup_lt_Some _ _ _ Hj) as Hlj.
  assert (Hj' : (<[j:=a]> (<[i:=b]> hs)) !! j = Some a).
  { apply list_lookup_insert_eq. by rewrite length_insert. }
  assert (Hi' : (<[j:=a]> (<[i:=b]> hs)) !! i = Some b).
  { destruct (decide (i = j)) as [->|Hne].
    - rewrite Hj'. congruence.
    - rewrite list_lookup_insert_ne by done. by apply list_lookup_insert_eq. }
  split; [congruence|]. split; [congruence|]. split.
  { intros k Hki Hkj. by rewrite !list_lookup_insert_ne by done. }
  split; [by rewrite !length_insert|]. split.
  { intros ->. assert (a = b) as -> by congruence.
    rewrite list_insert_insert_eq. by apply list_insert_id. }
  unfold swap_at. rewrite Hi', Hj'. simpl. rewrite !Fiber_eta. f_equal.
  apply list_eq. intros k.
  destruct (decide (k = j)) as [->|Hkj].
  { rewrite list_lookup_insert_eq by (by rewrite !length_insert). done. }
  rewrite list_lookup_insert_ne by done.
  destruct (decide (k = i)) as [->|Hki].
  { rewrite list_lookup_insert_eq by (by rewrite !length_insert). done. }
  by rewrite !list_lookup_insert_ne by done.
Qed.

Lemma swap_at_exchanges_witness :
  [mkFiber 8192; mkFiber 0; mkFiber 4096] !! 0
  = [mkFiber 4096; mkFiber 0; mkFiber 8192] !! 2.
Proof.
  apply (swap_at_exchanges 0 2 [mkFiber 4096; mkFiber 0; mkFiber 8192]
           [mkFiber 8192; mkFiber 0; mkFiber 4096]).
  reflexivity.
Defined.

Lemma holders_cons p h hs :
  holders p (h :: hs) = (if decide (impl_ h = p) then 1 else 0) + holders p hs.
Proof. unfold holders. rewrite filter_cons. by case_decide. Qed.

Lemma holders_app p hs1 hs2 :
  holders p (hs1 ++ hs2) = holders p hs1 + holders p hs2.
Proof. unfold holders. by rewrite filter_app, length_app. Qed.

Lemma holders_insert p x : ∀ hs i a,
  hs !! i = Some a →
  holders p (<[i := x]> hs) + (if decide (impl_ a = p) then 1 else 0)
  = holders p hs + (if decide (impl_ x = p) then 1 else 0).
Proof.
  induction hs as [|h hs IH]; intros i a Hi; [done|].
  destruct i as [|i]; simpl in *.
  - simplify_eq. rewrite !holders_cons. lia.
  - rewrite !holders_cons. specialize (IH i a Hi). lia.
Qed.

(** Two different handle objects that hold [p] count twice. *)
Lemma holders_two p : ∀ hs i j a b,
  hs !! i = Some a → hs !! j = Some b → i ≠ j →
  impl_ a = p → impl_ b = p → 2 ≤ holders p hs.
Proof.
  assert (Hone : ∀ hs i a, hs !! i = Some a → impl_ a = p → 1 ≤ holders p hs).
  { induction hs as [|h hs IH]; intros i a Hi Ha; [done|].
    rewrite holders_cons. destruct i as [|i]; simpl in Hi.
    - simplify_eq. rewrite decide_True by done. lia.
    - specialize (IH i a Hi Ha). lia. }
  induction hs as [|h hs IH]; intros i j a b Hi Hj Hne Ha Hb; [done|].
  rewrite holders_cons. destruct i as [|i], j as [|j]; simpl in *; try done.
  - injection Hi as ->. rewrite decide_True by done.
    specialize (Hone hs j b Hj Hb). lia.
  - injection Hj as ->. rewrite decide_True by done.
    specialize (Hone hs i a Hi Ha). lia.
  - assert (i ≠ j) by congruence.
    specialize (IH i j a b Hi Hj). case_decide; lia.
Qed.

Lemma handle_step_holders o hs hs' p :
  p ≠ nullptr → handle_step o hs = Some hs' → holders p hs' = holders p hs.
Proof.
  intros Hp H. destruct o as [|i|i j]; simpl in H.
  - simplify_eq. rewrite holders_app, holders_cons. simpl.
    rewrite decide_False by done. unfold holders. simpl. lia.
  - unfold move_construct_at in H.
    destruct (hs !! i) as [a|] eqn:Hi; [|done]. simplify_eq. simpl.
    rewrite holders_app, holders_cons.
    pose proof (holders_insert p {| impl_ := nullptr |} hs i a Hi) as Hins.
    simpl in Hins. rewrite (decide_False (P := nullptr = p)) in Hins by done.
    change (holders p []) with 0. simpl. lia.
  - apply swap_at_Some in H as (a & b & Hi & Hj & ->).
    pose proof (holders_insert p b hs i a Hi) as H1.
    assert (Hj1 : <[i:=b]> hs !! j = Some b).
    { destruct (decide (i = j)) as [->|Hne].
      - apply list_lookup_insert_eq. by eapply lookup_lt_Some.
      - by rewrite list_lookup_insert_ne. }
    pose proof (holders_insert p a (<[i:=b]> hs) j b Hj1) as H2. lia.
Qed.

(** X2.  Default construction, move construction and [swap], in any
    sequence, neither duplicate nor drop a reference: every control block
    is held by as many handles afterwards as before.  So if no control
    block was held twice, none is, and two different joinable handles have
    different ids. *)
Theorem handle_ops_keep_references (ops : list HandleOp)
    (hs hs' : list Fiber) :
  handle_run ops hs = Some hs' →
  (∀ p, p ≠ nullptr → holders p hs' = holders p hs)
  ∧ ((∀ p, p ≠ nullptr → holders p hs ≤ 1) →
     ∀ i j a b, hs' !! i = Some a → hs' !! j = Some b → i ≠ j →
       IsJoinable a = true → get_id a ≠ get_id b).
Proof.
  intros Hrun.
  assert (Hkeep : ∀ p, p ≠ nullptr → holders p hs' = holders p hs).
  { revert hs Hrun. induction ops as [|o ops IH]; intros hs Hrun p Hp;
      simpl in Hrun.
    - by simplify_eq.
    - destruct (handle_step o hs) as [hs1|] eqn:Hs; [|done].
      rewrite (IH hs1 Hrun p Hp). by eapply handle_step_holders. }
  split; [exact Hkeep|].
  intros Hsing i j a b Hi Hj Hne Ha Heq.
  apply IsJoinable_true in Ha. unfold get_id in Heq.
  pose proof (holders_two (impl_ a) hs' i j a b Hi Hj Hne eq_refl (eq_sym Heq)).
  specialize (Hsing (impl_ a) Ha). rewrite <- (Hkeep (impl_ a) Ha) in Hsing.
  lia.
Qed.

Lemma handle_ops_keep_references_witness :
  holders 4096 [mkFiber 0; mkFiber 0; mkFiber 4096; mkFiber 8192]
  = holders 4096 [mkFiber 4096; mkFiber 8192]
  ∧ get_id (mkFiber 4096) ≠ get_id (mkFiber 8192).
Proof.
  destruct (handle_ops_keep_references [OpMove 0; OpDefault; OpSwap 1 3]
              [mkFiber 4096; mkFiber 8192]
              [mkFiber 0; mkFiber 0; mkFiber 4096; mkFiber 8192])
    as [Hkeep Hid]; [reflexivity|].
  split; [apply Hkeep; discriminate|].
  apply (Hid (λ p _,
           ltac:(rewrite !holders_cons; change (holders p []) with 0;
                 cbn [impl_];
                 destruct (decide (4096%N = p)); destruct (decide (8192%N = p));
                 [congruence | lia | lia | lia])) 2 3);
    [reflexivity | reflexivity | discriminate | reflexivity].
Defined.

(** X13.  Move construction hands the reference over: the new handle
    holds exactly what the source held (it has the source's id), the
    source is left empty, so that [IsJoinable] is false and [get_id] is 0
    on it, every other handle is as before, and no control block gains or
    loses a holder. *)
Theorem move_construct_at_transfers (i : nat) (hs hs' : list Fiber) :
  move_construct_at i hs = Some hs' →
  ∃ a n e, hs !! i = Some a ∧ hs' !! length hs = Some n ∧ hs' !! i = Some e
    ∧ n = a ∧ get_id n = get_id a ∧ IsJoinable n = IsJoinable a
    ∧ e = Fiber_default ∧ get_id e = 0%N ∧ IsJoinable e = false
    ∧ (∀ k, k ≠ i → k ≠ length hs → hs' !! k = hs !! k)
    ∧ length hs' = S (length hs)
    ∧ (∀ p, p ≠ nullptr → holders p hs' = holders p hs).
Proof.
  intros H. pose proof H as H'. unfold move_construct_at in H.
  destruct (hs !! i) as [a|] eqn:Hi; [|done]. injection H as <-.
  pose proof (lookup_lt_Some _ _ _ Hi) as Hli.
  exists a, a, Fiber_default. split; [done|]. split.
  { rewrite lookup_app_r by (by rewrite length_insert).
    rewrite length_insert, Nat.sub_diag. simpl. by rewrite Fiber_eta. }
  split.
  { rewrite lookup_app_l by (by rewrite length_insert).
    by apply list_lookup_insert_eq. }
  repeat (split; [done|]). split.
  { intros k Hki Hkl. destruct (decide (k < length hs)) as [Hlt|Hge].
    - rewrite lookup_app_l by (by rewrite length_insert).
      by rewrite list_lookup_insert_ne.
    - rewrite lookup_ge_None_2 by (rewrite length_app, length_insert; simpl; lia).
      symmetry. apply lookup_ge_None_2. lia. }
  split; [rewrite length_app, length_insert; simpl; lia|].
  intros p Hp. by apply (handle_step_holders (OpMove i) hs).
Qed.

Lemma move_construct_at_transfers_witness :
  ∃ a n e, [mkFiber 4096; mkFiber 8192] !! 1 = Some a
    ∧ [mkFiber 4096; mkFiber 0; mkFiber 8192]
        !! length [mkFiber 4096; mkFiber 8192] = Some n
    ∧ [mkFiber 4096; mkFiber 0; mkFiber 8192] !! 1 = Some e
    ∧ n = a ∧ get_id n = get_id a ∧ IsJoinable n = IsJoinable a
    ∧ e = Fiber_default ∧ get_id e = 0%N ∧ IsJoinable e = false
    ∧ (∀ k, k ≠ 1 → k ≠ length [mkFiber 4096; mkFiber 8192] →
         [mkFiber 4096; mkFiber 0; mkFiber 8192] !! k
         = [mkFiber 4096; mkFiber 8192] !! k)
    ∧ length [mkFiber 4096; mkFiber 0; mkFiber 8192]
      = S (length [mkFiber 4096; mkFiber 8192])
    ∧ (∀ p, p ≠ nullptr →
         holders p [mkFiber 4096; mkFiber 0; mkFiber 8192]
         = holders p [mkFiber 4096; mkFiber 8192]).
Proof.
  apply (move_construct_at_transfers 1 [mkFiber 4096; mkFiber 8192]
           [mkFiber 4096; mkFiber 0; mkFiber 8192]).
  reflexivity.
Defined.

(** ** The constructors *)

Lemma create_block nm pr a l t p w s :
  threads w !! t = Some s → p ≠ nullptr → heap w !! p = None →
  ∃ w1 w2 f,
    MakeWorkerFiberImpl nm pr a t p w = Some w1 ∧ Start l p t w1 = Some w2 ∧
    heap w2 !! p = Some f ∧ name_ f = nm ∧ prio_ f = pr ∧
    stack_region f = allocate a ∧ scheduler f = sched_id s ∧
    join_state f = Joinable ∧
    run_state f = match l with post => Runnable | dispatch => Running end ∧
    FiberActive w2 t = match l with post => FiberActive w t | dispatch => p end.
Proof.
  intros Hs Hpn Hp. unfold MakeWorkerFiberImpl. rewrite Hs.
  apply N.eqb_neq in Hpn. rewrite Hpn, Hp.
  eexists. unfold Start. rewrite (heap_store p), lookup_insert_eq.
  destruct l.
  - eexists _, _. split; [reflexivity|]. split; [reflexivity|].
    rewrite heap_activate, heap_store, lookup_insert_eq.
    split; [reflexivity|]. repeat (split; [reflexivity|]).
    apply FiberActive_activate_same.
    destruct (<[p:=_]> (heap w) !! _); rewrite !threads_store; eauto.
  - eexists _, _. split; [reflexivity|]. split; [reflexivity|].
    rewrite heap_store, lookup_insert_eq.
    split; [reflexivity|]. repeat (split; [reflexivity|]). reflexivity.
Qed.

(** X3.  The constructors that take no options, and both [MakeFiber]
    overloads, end in the options-based constructor with only the launch
    policy and the name set.  So the fiber has NORMAL priority and a
    stack of 64 KiB, with the name given (none for the forms without a
    name); and the forms without a policy launch with post: the new fiber
    is Runnable and the creator is still the active fiber. *)
Theorem delegating_constructors_defaults (policy : Launch) (nm : string)
    (t : nat) (p : N) (w : World) :
  is_Some (threads w !! t) →
  p ≠ nullptr →
  heap w !! p = None →
  (∃ w' h f, Fiber_policy_name policy nm t p w = Some (w', h)
     ∧ impl_ h = p ∧ heap w' !! p = Some f
     ∧ name_ f = nm ∧ prio_ f = NORMAL
     ∧ region_size (stack_region f) = 65536%N
     ∧ Fiber_policy policy t p w = Fiber_policy_name policy EmptyString t p w
     ∧ MakeFiber_launch policy t p w
       = Fiber_policy_name policy EmptyString t p w)
  ∧ (∃ w' h f, Fiber_name nm t p w = Some (w', h)
       ∧ impl_ h = p ∧ heap w' !! p = Some f
       ∧ name_ f = nm ∧ prio_ f = NORMAL
       ∧ region_size (stack_region f) = 65536%N
       ∧ run_state f = Runnable
       ∧ FiberActive w' t = FiberActive w t
       ∧ Fiber_fn t p w = Fiber_name EmptyString t p w
       ∧ MakeFiber t p w = Fiber_name EmptyString t p w).
Proof.
  intros [s Hs] Hpn Hp.
  assert (Hsz : ∀ l, region_size
                       (allocate
                          (opts_stack_alloc
                             {| launch := l; priority := NORMAL; name := nm;
                                stack_size := 64 * 1024 |} w)) = 65536%N).
  { intros l. unfold opts_stack_alloc. by case_match. }
  split.
  - destruct (create_block nm NORMAL
                (opts_stack_alloc {| launch := policy; priority := NORMAL;
                                     name := nm; stack_size := 64 * 1024 |} w)
                policy t p w s Hs Hpn Hp)
      as (w1 & w2 & f & HM & HS & Hf & Hn & Hpr & Hst & _).
    exists w2, {| impl_ := p |}, f.
    unfold Fiber_policy_name, Fiber_opts. simpl. rewrite HM, HS.
    repeat (split; [done|]). split; [|done]. rewrite Hst. apply Hsz.
  - destruct (create_block nm NORMAL
                (opts_stack_alloc {| launch := post; priority := NORMAL;
                                     name := nm; stack_size := 64 * 1024 |} w)
                post t p w s Hs Hpn Hp)
      as (w1 & w2 & f & HM & HS & Hf & Hn & Hpr & Hst & _ & _ & Hr & Ha).
    exists w2, {| impl_ := p |}, f.
    unfold Fiber_name, Fiber_policy_name, Fiber_opts. simpl. rewrite HM, HS.
    repeat (split; [done|]). split; [rewrite Hst; apply Hsz|]. done.
Qed.

Lemma delegating_constructors_defaults_witness :
  ∃ w' h f, Fiber_name "worker" 0 20480 example_world = Some (w', h)
    ∧ impl_ h = 20480%N ∧ heap w' !! 20480%N = Some f
    ∧ name_ f = "worker"%string ∧ prio_ f = NORMAL
    ∧ region_size (stack_region f) = 65536%N
    ∧ run_state f = Runnable
    ∧ FiberActive w' 0 = FiberActive example_world 0
    ∧ Fiber_fn 0 20480 example_world = Fiber_name EmptyString 0 20480 example_world
    ∧ MakeFiber 0 20480 example_world
      = Fiber_name EmptyString 0 20480 example_world.
Proof.
  apply (delegating_constructors_defaults post "worker" 0 20480 example_world).
  - vm_compute. eauto.
  - discriminate.
  - reflexivity.
Defined.

(** X4.  The default size installed with the process-wide resource does
    not reach the constructors of the handle: whatever [default_size]
    was, the options-based constructor gives the stack [opts.stack_size]
    bytes, and a constructor without options gives it 64 KiB. *)
Theorem installed_default_size_is_not_used (mr default_size : N)
    (w0 w : World) (opts : Opts) (nm : string) (t : nat) (p : N) :
  SetDefaultStackResource mr default_size w0 = Some w →
  is_Some (threads w !! t) →
  p ≠ nullptr →
  heap w !! p = None →
  default_stack_size w = default_size
  ∧ (∃ w' h, Fiber_opts opts t p w = Some (w', h)
       ∧ region_size <$> stack_of w' p = Some (stack_size opts))
  ∧ (∃ w' h, Fiber_name nm t p w = Some (w', h)
       ∧ region_size <$> stack_of w' p = Some 65536%N)
  ∧ (∀ sz' w2, SetDefaultStackResource mr sz' w0 = Some w2 →
       ∀ w' h w2' h2, Fiber_opts opts t p w = Some (w', h) →
         Fiber_opts opts t p w2 = Some (w2', h2) →
         stack_of w' p = stack_of w2' p).
Proof.
  intros Hset [s Hs] Hpn Hp.
  unfold SetDefaultStackResource in Hset.
  destruct (default_stack_resource w0 =? nullptr)%N eqn:Hn0; [|done].
  injection Hset as <-. split; [done|].
  assert (Hgen : ∀ o : Opts, ∃ w' h,
             Fiber_opts o t p (with_stack_resource mr default_size w0) = Some (w', h)
             ∧ region_size <$> stack_of w' p = Some (stack_size o)).
  { intros o.
    destruct (create_block (name o) (priority o)
                (opts_stack_alloc o (with_stack_resource mr default_size w0))
                (launch o) t p _ s Hs Hpn Hp)
      as (w1 & w2 & f & HM & HS & Hf & _ & _ & Hst & _).
    exists w2, {| impl_ := p |}. unfold Fiber_opts. rewrite HM, HS.
    split; [done|]. unfold stack_of. rewrite Hf. simpl. rewrite Hst.
    unfold opts_stack_alloc. by case_match. }
  split; [apply Hgen|]. split.
  { apply (Hgen {| launch := post; priority := NORMAL; name := nm;
                   stack_size := 64 * 1024 |}). }
  intros sz' w2 Hset2 w' h w2' h2 H1 H2.
  unfold SetDefaultStackResource in Hset2. rewrite Hn0 in Hset2.
  injection Hset2 as <-.
  assert (Hh : ∀ x y (hh : Fiber),
             Fiber_opts opts t p x = Some (y, hh) → impl_ hh = p).
  { intros x y hh Hx. by apply Fiber_opts_inv in Hx as (? & _ & _ & _ & -> & _). }
  pose proof (Hh _ _ _ H1) as E1. pose proof (Hh _ _ _ H2) as E2.
  apply Fiber_opts_stack in H1, H2. rewrite E1 in H1. rewrite E2 in H2.
  rewrite H1, H2. reflexivity.
Qed.

Lemma installed_default_size_is_not_used_witness :
  default_stack_size (with_stack_resource 28672 131072 example_world) = 131072%N
  ∧ (∃ w' h, Fiber_opts default_Opts 0 20480
               (with_stack_resource 28672 131072 example_world) = Some (w', h)
       ∧ region_size <$> stack_of w' 20480 = Some (stack_size default_Opts)).
Proof.
  destruct (installed_default_size_is_not_used 28672 131072 example_world
              (with_stack_resource 28672 131072 example_world)
              default_Opts EmptyString 0 20480) as (H1 & H2 & _).
  - reflexivity.
  - vm_compute. eauto.
  - discriminate.
  - reflexivity.
  - split; [exact H1|exact H2].
Defined.

(** X5.  The constructor that is given a stack allocator takes the stack
    from that allocator, also when a process-wide resource is installed,
    and always builds the fiber with NORMAL priority. *)
Theorem Fiber_stack_alloc_uses_allocator (policy : Launch)
    (stack_alloc : StackAlloc) (nm : string) (t : nat) (p : N) (w : World) :
  is_Some (threads w !! t) →
  p ≠ nullptr →
  heap w !! p = None →
  ∃ w' h f, Fiber_stack_alloc policy stack_alloc nm t p w = Some (w', h)
    ∧ impl_ h = p ∧ heap w' !! p = Some f
    ∧ stack_region f = allocate stack_alloc
    ∧ prio_ f = NORMAL ∧ name_ f = nm
    ∧ FiberActive w' t
      = match policy with post => FiberActive w t | dispatch => p end.
Proof.
  intros [s Hs] Hpn Hp.
  destruct (create_block nm NORMAL stack_alloc policy t p w s Hs Hpn Hp)
    as (w1 & w2 & f & HM & HS & Hf & Hn & Hpr & Hst & _ & _ & _ & Ha).
  exists w2, {| impl_ := p |}, f. unfold Fiber_stack_alloc. rewrite HM, HS.
  done.
Qed.

Lemma Fiber_stack_alloc_uses_allocator_witness :
  ∃ w' h f,
    Fiber_stack_alloc dispatch (fixedsize_stack 8192) "io" 0 20480
      (with_stack_resource 28672 131072 example_world) = Some (w', h)
    ∧ impl_ h = 20480%N ∧ heap w' !! 20480%N = Some f
    ∧ stack_region f = allocate (fixedsize_stack 8192)
    ∧ prio_ f = NORMAL ∧ name_ f = "io"%string
    ∧ FiberActive w' 0 = 20480%N.
Proof.
  apply (Fiber_stack_alloc_uses_allocator dispatch (fixedsize_stack 8192) "io"
           0 20480 (with_stack_resource 28672 131072 example_world)).
  - vm_compute. eauto.
  - discriminate.
  - reflexivity.
Defined.

(** ** IsLocal *)

(** X6.  A handle of the calling fiber is local: when [IsActive] is true
    on a handle whose control block exists, [IsLocal] is true; so a
    handle that is not local is not the calling fiber. *)
Theorem IsActive_implies_IsLocal (w : World) (t : nat) (this : Fiber) :
  is_Some (heap w !! impl_ this) →
  (IsActive w t this = true → IsLocal w t this = Some true)
  ∧ (IsLocal w t this = Some false → IsActive w t this = false).
Proof.
  intros [f Hf].
  assert (H : IsActive w t this = true → IsLocal w t this = Some true).
  { intros Ha. apply IsActive_true in Ha. unfold IsLocal.
    rewrite <- Ha, Hf. by rewrite N.eqb_refl. }
  split; [exact H|]. intros Hl.
  destruct (IsActive w t this); [|done]. rewrite H in Hl; done.
Qed.

Lemma IsActive_implies_IsLocal_witness :
  (IsActive example_world 0 (mkFiber 4096) = true →
   IsLocal example_world 0 (mkFiber 4096) = Some true)
  ∧ (IsLocal example_world 1 (mkFiber 4096) = Some false →
     IsActive example_world 1 (mkFiber 4096) = false).
Proof.
  split.
  - apply (IsActive_implies_IsLocal example_world 0 (mkFiber 4096)).
    vm_compute. eauto.
  - apply (IsActive_implies_IsLocal example_world 1 (mkFiber 4096)).
    vm_compute. eauto.
Defined.

Lemma wf_active_alloc w t :
  wf_world w → (is_Some (heap w !! FiberActive w t) ↔ FiberActive w t ≠ nullptr).
Proof.
  intros Hwf. split.
  - intros [f Hf]. eapply wf_lookup_nonnull; eauto.
  - intros Hn. destruct (wf_FiberActive w t Hwf Hn) as (f & _ & Hf & _). eauto.
Qed.

(** X7.  Unlike [get_id], [IsJoinable] and [IsActive], [IsLocal] follows
    both pointers: it has a result exactly when the handle points to a
    control block and a fiber is active on the calling thread.  On an
    empty or moved-from handle, or with no active fiber, it has none. *)
Theorem IsLocal_defined_iff (w : World) (t : nat) (this : Fiber) :
  wf_world w →
  (is_Some (IsLocal w t this)
   ↔ is_Some (heap w !! impl_ this) ∧ FiberActive w t ≠ nullptr)
  ∧ (IsJoinable this = false → IsLocal w t this = None)
  ∧ IsLocal w t (snd (Fiber_move this)) = None
  ∧ (FiberActive w t = nullptr → IsLocal w t this = None).
Proof.
  intros Hwf.
  assert (Hiff : ∀ h, is_Some (IsLocal w t h)
                      ↔ is_Some (heap w !! impl_ h) ∧ FiberActive w t ≠ nullptr).
  { intros h. rewrite <- (wf_active_alloc w t Hwf). unfold IsLocal.
    destruct (heap w !! impl_ h) as [f|];
      destruct (heap w !! FiberActive w t) as [a|]; split;
      try (intros [? ?]; done); try (intros [[? ?] [? ?]]; done); eauto. }
  assert (Hnone : ∀ h, impl_ h = nullptr → IsLocal w t h = None).
  { intros h Hh. unfold IsLocal. by rewrite Hh, (wf_null w Hwf). }
  split; [apply Hiff|]. split.
  { intros Hj. apply Hnone. by apply IsJoinable_false. }
  split; [by apply Hnone|].
  intros Ha. apply eq_None_not_Some. rewrite Hiff. by intros [_ ?].
Qed.

Lemma IsLocal_defined_iff_witness :
  IsLocal example_world 0 (snd (Fiber_move (mkFiber 4096))) = None.
Proof.
  apply (IsLocal_defined_iff example_world 0 (mkFiber 4096)).
  apply example_world_wf.
Defined.

(** X8.  A control block is bound to one scheduler, and every carrier
    thread has its own: a handle that is local on one thread is local on
    no other, and [IsLocal] is false on every other thread that has an
    active fiber. *)
Theorem IsLocal_on_one_thread (w : World) (t1 t2 : nat) (this : Fiber) :
  wf_world w →
  IsLocal w t1 this = Some true →
  (IsLocal w t2 this = Some true → t1 = t2)
  ∧ (t1 ≠ t2 → FiberActive w t2 ≠ nullptr → IsLocal w t2 this = Some false).
Proof.
  intros Hwf H1.
  assert (Hone : IsLocal w t2 this = Some true → t1 = t2).
  { intros H2. unfold IsLocal in H1, H2.
    destruct (heap w !! impl_ this) as [f|]; [|done].
    destruct (heap w !! FiberActive w t1) as [a1|] eqn:Ha1; [|done].
    destruct (heap w !! FiberActive w t2) as [a2|] eqn:Ha2; [|done].
    injection H1 as H1. injection H2 as H2. apply N.eqb_eq in H1, H2.
    assert (Hn1 : FiberActive w t1 ≠ nullptr)
      by (eapply wf_lookup_nonnull; eauto).
    assert (Hn2 : FiberActive w t2 ≠ nullptr)
      by (eapply wf_lookup_nonnull; eauto).
    destruct (wf_FiberActive w t1 Hwf Hn1)
      as (a1' & s1 & Ha1' & _ & Hs1 & Hsch1 & _).
    destruct (wf_FiberActive w t2 Hwf Hn2)
      as (a2' & s2 & Ha2' & _ & Hs2 & Hsch2 & _).
    eapply (wf_sched w Hwf); eauto. congruence. }
  split; [exact Hone|]. intros Hne Hact.
  assert (Hdef : is_Some (IsLocal w t2 this)).
  { apply wf_active_alloc in Hact as [a2 Ha2]; [|done]. unfold IsLocal in *.
    destruct (heap w !! impl_ this); [|done]. rewrite Ha2. eauto. }
  destruct Hdef as [[] Hb]; [|done]. by apply Hone in Hb.
Qed.

Lemma IsLocal_on_one_thread_witness :
  (IsLocal example_world 1 (mkFiber 12288) = Some true → 0 = 1)
  ∧ (0 ≠ 1 → FiberActive example_world 1 ≠ nullptr →
     IsLocal example_world 1 (mkFiber 12288) = Some false).
Proof.
  apply (IsLocal_on_one_thread example_world 0 1 (mkFiber 12288));
    [apply example_world_wf | reflexivity].
Defined.

(** ** The this-fiber operations need an active fiber *)

(** X9.  [Yield], [SleepUntil], [SleepFor] and both ends of a
    [PrintLocalsCallback] call through [FiberActive()]: they have a
    result exactly when a fiber is active on the calling thread, and with
    none they follow a null pointer.  For [SleepFor] this is stated for
    the durations whose sum with the clock is a value of the time
    point. *)
Theorem ThisFiber_needs_active_fiber (w : World) (t : nat) (tp d : Z)
    (fn : PrintFn) :
  wf_world w →
  (is_Some (ThisFiber.Yield t w) ↔ FiberActive w t ≠ nullptr)
  ∧ (is_Some (ThisFiber.SleepUntil tp t w) ↔ FiberActive w t ≠ nullptr)
  ∧ (in_time_point_range (now w + d) →
     (is_Some (ThisFiber.SleepFor d t w) ↔ FiberActive w t ≠ nullptr))
  ∧ (is_Some (ThisFiber.PrintLocalsCallback_ctor fn t w)
     ↔ FiberActive w t ≠ nullptr)
  ∧ (is_Some (ThisFiber.PrintLocalsCallback_dtor t w)
     ↔ FiberActive w t ≠ nullptr).
Proof.
  intros Hwf. rewrite <- (wf_active_alloc w t Hwf).
  unfold ThisFiber.Yield, ThisFiber.SleepFor, ThisFiber.SleepUntil,
    ThisFiber.PrintLocalsCallback_ctor, ThisFiber.PrintLocalsCallback_dtor,
    FiberInterface_Yield, WaitUntil, SetPrintStacktraceCb.
  destruct (heap w !! FiberActive w t) as [f|]; repeat split;
    try (intros [? ?]; done); eauto.
Qed.

Lemma ThisFiber_needs_active_fiber_witness :
  (is_Some (ThisFiber.Yield 0 example_world)
   ↔ FiberActive example_world 0 ≠ nullptr)
  ∧ (is_Some (ThisFiber.SleepFor 50 0 example_world)
     ↔ FiberActive example_world 0 ≠ nullptr).
Proof.
  destruct (ThisFiber_needs_active_fiber example_world 0 0 50 example_callback)
    as (HY & _ & HS & _); [apply example_world_wf|].
  split; [exact HY|]. apply HS. unfold in_time_point_range. simpl. lia.
Defined.

(** In the world that [Yield] leaves, thread 0 has no active fiber until
    its scheduler switches: a second this-fiber call has no result. *)
Example ThisFiber_no_active_fiber_example :
  (w ← ThisFiber.Yield 0 example_world;
   Some (FiberActive w 0, ThisFiber.Yield 0 w, ThisFiber.SleepFor 5 0 w,
         ThisFiber.PrintLocalsCallback_dtor 0 w))
  = Some (nullptr, None, None, None).
Proof. vm_compute. reflexivity. Qed.

(** ** Callback guards do not nest *)

(** X10.  A second [PrintLocalsCallback] guard replaces the callback of
    the first, and its destructor leaves the control block without any
    callback although the first guard is still alive: the callback of an
    enclosing guard is not restored. *)
Theorem PrintLocalsCallback_not_restored (fn1 fn2 : PrintFn) (t : nat)
    (w : World) :
  is_Some (heap w !! FiberActive w t) →
  ∃ w1 w2 w3,
    ThisFiber.PrintLocalsCallback_ctor fn1 t w = Some w1
    ∧ cb_of w1 (FiberActive w t) = Some (Some fn1)
    ∧ ThisFiber.PrintLocalsCallback_ctor fn2 t w1 = Some w2
    ∧ cb_of w2 (FiberActive w t) = Some (Some fn2)
    ∧ ThisFiber.PrintLocalsCallback_dtor t w2 = Some w3
    ∧ cb_of w3 (FiberActive w t) = Some None
    ∧ FiberActive w3 t = FiberActive w t.
Proof.
  intros Hact.
  assert (Hset : ∀ cb w0, FiberActive w0 t = FiberActive w t →
             is_Some (heap w0 !! FiberActive w t) →
             ∃ w', SetPrintStacktraceCb cb (FiberActive w0 t) w0 = Some w'
                   ∧ cb_of w' (FiberActive w t) = Some cb
                   ∧ FiberActive w' t = FiberActive w t
                   ∧ is_Some (heap w' !! FiberActive w t)).
  { intros cb w0 Ha Hal. rewrite Ha.
    destruct (SetPrintStacktraceCb_stores cb _ w0 Hal) as (w' & Hs & Hcb & Hth).
    exists w'. split; [done|]. split; [done|]. split.
    - unfold FiberActive in *. by rewrite Hth.
    - unfold cb_of in Hcb. destruct (heap w' !! FiberActive w t); [eauto|done]. }
  destruct (Hset (Some fn1) w eq_refl Hact) as (w1 & H1 & C1 & A1 & L1).
  destruct (Hset (Some fn2) w1 A1 L1) as (w2 & H2 & C2 & A2 & L2).
  destruct (Hset None w2 A2 L2) as (w3 & H3 & C3 & A3 & _).
  exists w1, w2, w3. unfold ThisFiber.PrintLocalsCallback_ctor,
    ThisFiber.PrintLocalsCallback_dtor. auto 10.
Qed.

Lemma PrintLocalsCallback_not_restored_witness :
  ∃ w1 w2 w3,
    ThisFiber.PrintLocalsCallback_ctor example_callback 0 example_world = Some w1
    ∧ cb_of w1 (FiberActive example_world 0) = Some (Some example_callback)
    ∧ ThisFiber.PrintLocalsCallback_ctor (λ _, "inner"%string) 0 w1 = Some w2
    ∧ cb_of w2 (FiberActive example_world 0) = Some (Some (λ _, "inner"%string))
    ∧ ThisFiber.PrintLocalsCallback_dtor 0 w2 = Some w3
    ∧ cb_of w3 (FiberActive example_world 0) = Some None
    ∧ FiberActive w3 0 = FiberActive example_world 0.
Proof.
  apply (PrintLocalsCallback_not_restored example_callback
           (λ _, "inner"%string) 0 example_world).
  vm_compute. eauto.
Defined.

(** ** The depth counter counts the guards alive *)

Lemma length_filter_ne (g : nat) : ∀ l : list nat,
  NoDup l →
  length (filter (λ x, x ≠ g) l) + (if decide (g ∈ l) then 1 else 0)
  = length l.
Proof.
  induction l as [|x l IH]; intros Hnd.
  - rewrite filter_nil.
    destruct (decide (g ∈ [])) as [H|]; [by apply elem_of_nil in H|done].
  - apply NoDup_cons in Hnd as [Hx Hnd]. specialize (IH Hnd).
    rewrite filter_cons.
    destruct (decide (x = g)) as [->|Hne];
      repeat match goal with
             | |- context [decide ?P] => destruct (decide P)
             | H : context [decide ?P] |- _ => destruct (decide P)
             end;
      simpl in *; try lia; exfalso; rewrite ?elem_of_cons in *;
      intuition congruence.
Qed.

Lemma guard_live_step t w live o live' :
  is_Some (threads w !! t) → NoDup live → guard_live live o = Some live' →
  (atomic_depth (guard_step t w o) t - Z.of_nat (length live')
   = atomic_depth w t - Z.of_nat (length live))%Z
  ∧ is_Some (threads (guard_step t w o) !! t) ∧ NoDup live'.
Proof.
  intros Ht Hnd H. destruct o as [g|g]; simpl in *.
  - destruct (decide (g ∈ live)) as [|Hnin]; [done|]. simplify_eq.
    destruct (atomic_depth_ctor t w Ht) as [-> Ht1].
    split; [simpl; lia|]. split; [done|]. by apply NoDup_cons.
  - destruct (decide (g ∈ live)) as [Hin|]; [|done]. simplify_eq.
    destruct (atomic_depth_dtor t w Ht) as [-> Ht1].
    pose proof (length_filter_ne g live Hnd) as Hlen.
    rewrite decide_True in Hlen by done.
    split; [lia|]. split; [done|]. by apply NoDup_filter.
Qed.

(** X11.  Whatever the order in which guards are constructed and
    destroyed, the depth counter of the thread is its value at the start
    plus the number of guards alive.  Starting with no guard alive it
    never falls below the start value, it is back at it exactly when no
    guard is alive, and a thread that was preemptible is preemptible
    exactly then. *)
Theorem guard_depth_counts_live_guards (t : nat) (ops : list GuardOp)
    (live' : list nat) (w : World) :
  is_Some (threads w !! t) →
  guards_live [] ops = Some live' →
  atomic_depth (guard_run t ops w) t
  = (atomic_depth w t + Z.of_nat (length live'))%Z
  ∧ (atomic_depth (guard_run t ops w) t = atomic_depth w t ↔ live' = [])
  ∧ (preemptible w t = true →
     (preemptible (guard_run t ops w) t = true ↔ live' = [])).
Proof.
  intros Ht Hlive.
  assert (Hgen : ∀ ops live live' w,
            is_Some (threads w !! t) → NoDup live →
            guards_live live ops = Some live' →
            (atomic_depth (guard_run t ops w) t - Z.of_nat (length live')
             = atomic_depth w t - Z.of_nat (length live))%Z).
  { clear. induction ops as [|o ops IH]; intros live live' w Ht Hnd H;
      simpl in H.
    - by simplify_eq.
    - destruct (guard_live live o) as [live1|] eqn:Ho; [|done].
      destruct (guard_live_step t w live o live1 Ht Hnd Ho) as (Hd & Ht1 & Hnd1).
      rewrite guard_run_cons. rewrite (IH live1 live' _ Ht1 Hnd1 H). exact Hd. }
  pose proof (Hgen ops [] live' w Ht (NoDup_nil_2) Hlive) as Hd. simpl in Hd.
  assert (Hnil : Z.of_nat (length live') = 0%Z ↔ live' = []).
  { destruct live'; simpl; split; intros; try done; lia. }
  split; [lia|]. split.
  - rewrite <- Hnil. lia.
  - unfold preemptible. intros Hp. apply Z.eqb_eq in Hp.
    rewrite Z.eqb_eq, <- Hnil. lia.
Qed.

Lemma guard_depth_counts_live_guards_witness :
  atomic_depth
    (guard_run 0 [Construct 1; Construct 2; Destroy 1; Construct 3; Destroy 3]
       example_world) 0
  = (atomic_depth example_world 0 + Z.of_nat (length [2]))%Z.
Proof.
  apply (guard_depth_counts_live_guards 0
           [Construct 1; Construct 2; Destroy 1; Construct 3; Destroy 3]
           [2] example_world).
  - vm_compute. eauto.
  - reflexivity.
Defined.

(** ** IsActive singles out one fiber *)

(** X12.  On one thread [IsActive] is true for one control block only:
    two handles for which it is true there have the same id.  And a
    non-empty handle is the calling fiber on at most one thread, where it
    is also joinable and has the id of the active fiber. *)
Theorem IsActive_singles_out (w : World) (t1 t2 : nat) (h1 h2 : Fiber) :
  wf_world w →
  IsActive w t1 h1 = true →
  (IsActive w t1 h2 = true → get_id h1 = get_id h2)
  ∧ (IsJoinable h1 = true →
     get_id h1 = FiberActive w t1
     ∧ (IsActive w t2 h1 = true → t1 = t2)
     ∧ (t1 ≠ t2 → IsActive w t2 h1 = false)).
Proof.
  intros Hwf H1. apply IsActive_true in H1.
  split.
  { intros H2. apply IsActive_true in H2. unfold get_id. congruence. }
  intros Hj. apply IsJoinable_true in Hj.
  assert (Hone : IsActive w t2 h1 = true → t1 = t2).
  { intros H2. apply IsActive_true in H2.
    apply (wf_active_unique w t1 t2 Hwf); congruence. }
  split; [done|]. split; [exact Hone|].
  intros Hne. destruct (IsActive w t2 h1); [|done]. by destruct Hne; apply Hone.
Qed.

Lemma IsActive_singles_out_witness :
  (IsActive example_world 0 (mkFiber 4096) = true →
   get_id (mkFiber 4096) = get_id (mkFiber 4096))
  ∧ (IsJoinable (mkFiber 4096) = true →
     get_id (mkFiber 4096) = FiberActive example_world 0
     ∧ (IsActive example_world 1 (mkFiber 4096) = true → 0 = 1)
     ∧ (0 ≠ 1 → IsActive example_world 1 (mkFiber 4096) = false)).
Proof.
  apply (IsActive_singles_out example_world 0 1 (mkFiber 4096) (mkFiber 4096));
    [apply example_world_wf | reflexivity].
Defined.
